(** * BeyondTrust client: credential lifecycle and secret lookup

    A shallow embedding of [src/beyondtrust_client.py] (class
    [BeyondTrustClient]) and the properties of its specification.

    The client is stateful Python: it mutates the token cache, talks to an
    HTTP transport, reads the wall clock and sleeps.  The embedding threads
    an explicit state through a small state-and-exception monad.  Unlike a
    state transformer over an error monad, a raised exception here keeps
    the state reached so far: Python does not roll attribute writes back
    when a [try] block fails. *)

From Stdlib Require Import ZArith List String Bool Lia Arith.
Import ListNotations.

Set Warnings "-register-all".

Local Open Scope string_scope.
Local Open Scope list_scope.
Local Open Scope Z_scope.

(** ** Data *)

(** A Python [float]: the finite binary64 value [m * 2^e], an infinity, or
    NaN. *)
Inductive pyfloat : Type :=
  | Finite (m e : Z)
  | Inf (negative : bool)
  | NaN.

(** Values produced by [resp.json()]: [None], [bool], [int], [float],
    [str], [list] and [dict] with string keys.  A [dict] is kept as an
    association list in insertion order; a lookup takes the first binding
    of the key. *)
Inductive json : Type :=
  | JNull
  | JBool (b : bool)
  | JNum (n : Z)
  | JFloat (f : pyfloat)
  | JStr (s : string)
  | JList (l : list json)
  | JObj (o : list (string * json)).

(** Exceptions.  The payload of a client exception is kept structured
    instead of being rendered into the message string. *)
Inductive exn : Type :=
  | HTTPError (status : Z)            (* requests.HTTPError *)
  | RequestError (what : string)      (* any other requests.RequestException *)
  | KeyError (key : string)
  | TypeError
  | AttributeError
  | OverflowError
  | ValueError
  | CookieConflictError               (* requests' CookieConflictError, a RuntimeError *)
  | OtherError (what : string)        (* any other subclass of Exception *)
  | BeyondTrustError (cause : exn)    (* "Failed to retrieve secrets: {e}" *)
  | AuthError_attempts (n : nat) (last : exn)
                                      (* "Failed to acquire token after {n} attempts: {e}" *)
  | AuthError_no_session              (* "... ASP.NET_SessionId was not returned." *)
  | ResourceNotFoundError (folder_name : string).

(** The class hierarchy, as far as [except] clauses and callers test it. *)
Definition is_RequestException (e : exn) : bool :=
  match e with
  | HTTPError _ | RequestError _ => true
  | _ => false
  end.

Definition is_AuthError (e : exn) : bool :=
  match e with
  | AuthError_attempts _ _ | AuthError_no_session => true
  | _ => false
  end.

Definition is_BeyondTrustError (e : exn) : bool :=
  match e with
  | BeyondTrustError _ | AuthError_attempts _ _ | AuthError_no_session
  | ResourceNotFoundError _ => true
  | _ => false
  end.

(** The header set built by [_get_auth_headers]; [Accept] is constant. *)
Record headers : Type := mkHeaders {
  h_bearer : json;       (* Authorization: Bearer {token} *)
  h_session : string     (* Cookie: ASP.NET_SessionId={session_id} *)
}.

(** The four calls the client makes on [self.session].  The URLs come from
    the fixed [ClientConfig]; only the varying parts are recorded. *)
Inductive request : Type :=
  | PostToken                                   (* POST token_url, client credentials *)
  | PostSignIn (bearer : json)                  (* POST sign_in_url *)
  | GetFolders (h : headers)                    (* GET {base_url}/Folders *)
  | GetFolderSecrets (f_id : json) (h : headers). (* GET {base_url}/Folders/{f_id}/secrets *)

Record response : Type := mkResponse {
  status_code : Z;
  body : exn + json;                 (* what [resp.json()] raises or returns *)
  cookies : list (string * string)
}.

Inductive event : Type :=
  | EvRequest (r : request)
  | EvSleep (d : Z)
  | EvNow.

(** The collaborators: the transport answers the [n]-th request made
    through the session, the clock answers the [n]-th reading.  Instants
    are microseconds since [datetime.min]. *)
Record world : Type := mkWorld {
  transport : nat -> request -> exn + response;
  clock : nat -> Z
}.

(** The instance attributes of the client, and the events so far. *)
Record state : Type := mkState {
  access_token : json;              (* self._access_token, JNull for None *)
  token_expiry : option Z;          (* self._token_expiry *)
  retries : nat;                    (* self.retries *)
  backoff : Z;                      (* self.backoff *)
  trace : list event
}.

(** [__init__]: an empty cache, three attempts, backoff base two. *)
Definition new_client : state :=
  {| access_token := JNull; token_expiry := None;
     retries := 3; backoff := 2; trace := [] |}.

(** ** Python primitives *)

(** [n / 2^k] rounded to the nearest integer, ties to the even one. *)
Definition round_half_even (n k : Z) : Z :=
  let fl := n / 2 ^ k in
  let r := n mod 2 ^ k in
  let half := 2 ^ (k - 1) in
  if r <? half then fl
  else if half <? r then fl + 1
  else if Z.even fl then fl else fl + 1.

(** The binary64 value nearest to [m * 2^e]: 53 bits of mantissa, no
    exponent below -1074, ties to even, an infinity from [2^1024] on. *)
Definition round53 (m e : Z) : pyfloat :=
  if m =? 0 then Finite 0 0
  else
    let p := Z.log2 (Z.abs m) + 1 in
    let q := Z.max (p + e - 53) (-1074) in
    let m' := if q <=? e then m else round_half_even m (q - e) in
    let e' := if q <=? e then e else q in
    if 2 ^ 2098 <=? Z.abs m' * 2 ^ (e' + 1074)
    then Inf (m' <? 0)
    else Finite m' e'.

(** The float a parsed number is. *)
Definition as_double (f : pyfloat) : pyfloat :=
  match f with
  | Finite m e => round53 m e
  | _ => f
  end.

(** [a - b] on floats. *)
Definition float_sub (a b : pyfloat) : pyfloat :=
  match a, b with
  | NaN, _ | _, NaN => NaN
  | Inf x, Inf y => if Bool.eqb x y then NaN else Inf x
  | Inf x, Finite _ _ => Inf x
  | Finite _ _, Inf y => Inf (negb y)
  | Finite m1 e1, Finite m2 e2 =>
      let e0 := Z.min e1 e2 in
      round53 (m1 * 2 ^ (e1 - e0) - m2 * 2 ^ (e2 - e0)) e0
  end.

(** [modf]: the integral part, towards zero, and the fractional part. *)
Definition float_trunc (m e : Z) : Z :=
  if 0 <=? e then m * 2 ^ e else Z.quot m (2 ^ (- e)).

Definition float_frac (m e : Z) : Z * Z :=
  if 0 <=? e then (0, 0) else (Z.rem m (2 ^ (- e)), e).

Definition float_is_zero (f : pyfloat) : bool :=
  match as_double f with
  | Finite m _ => m =? 0
  | _ => false
  end.

Definition truthy (v : json) : bool :=
  match v with
  | JNull => false
  | JBool b => b
  | JNum n => negb (n =? 0)
  | JFloat f => negb (float_is_zero f)
  | JStr s => negb (String.eqb s EmptyString)
  | JList l => match l with [] => false | _ => true end
  | JObj o => match o with [] => false | _ => true end
  end.

Fixpoint assoc {A : Type} (k : string) (o : list (string * A)) : option A :=
  match o with
  | [] => None
  | (k', v) :: o' => if String.eqb k' k then Some v else assoc k o'
  end.

(** [v[key]] with a string key: only a [dict] can answer. *)
Definition getitem (v : json) (key : string) : exn + json :=
  match v with
  | JObj o => match assoc key o with
              | Some x => inr x
              | None => inl (KeyError key)
              end
  | _ => inl TypeError
  end.

(** [v.get(key, default)]: only a [dict] has the method. *)
Definition get_default (v : json) (key : string) (default : json) : exn + json :=
  match v with
  | JObj o => match assoc key o with
              | Some x => inr x
              | None => inr default
              end
  | _ => inl AttributeError
  end.

(** The integer a value is, when it is an [int]; [bool] is a subclass of
    [int], and a [float] is not one. *)
Definition as_int (v : json) : option Z :=
  match v with
  | JNum n => Some n
  | JBool b => Some (Z.b2z b)
  | _ => None
  end.

Definition us_per_second : Z := 1000000.
Definition seconds (s : Z) : Z := s * us_per_second.

(** [timedelta(seconds=s)]: the normalised day count is limited. *)
Definition max_delta_days : Z := 999999999.

Definition timedelta_seconds (s : Z) : exn + Z :=
  if (- max_delta_days <=? s / 86400) && (s / 86400 <=? max_delta_days)
  then inr (seconds s)
  else inl OverflowError.

(** A [timedelta] of [us] microseconds, under the same limit. *)
Definition timedelta_microseconds (us : Z) : exn + Z :=
  if (- max_delta_days <=? us / (86400 * us_per_second))
     && (us / (86400 * us_per_second) <=? max_delta_days)
  then inr us
  else inl OverflowError.

(** [timedelta(seconds=f)] for a float: the integral seconds are exact,
    the fractional part times [1e6] is a float product, and what is left
    below a microsecond is rounded to the nearest, ties to even. *)
Definition timedelta_float (f : pyfloat) : exn + Z :=
  match f with
  | NaN => inl ValueError
  | Inf _ => inl OverflowError
  | Finite m e =>
      let x := float_trunc m e * us_per_second in
      let (fm, fe) := float_frac m e in
      if fm =? 0 then timedelta_microseconds x
      else
        match round53 (fm * us_per_second) fe with
        | Finite pm pe =>
            let y := x + float_trunc pm pe in
            let (lm, le) := float_frac pm pe in
            timedelta_microseconds
              (if lm =? 0 then y
               else round_half_even (y * 2 ^ (- le) + lm) (- le))
        | _ => inl OverflowError
        end
  end.

(** A number: [int] or [float]. *)
Inductive pynum : Type :=
  | PInt (n : Z)
  | PFloat (f : pyfloat).

(** [v - k] for an [int] [k]. *)
Definition py_sub (v : json) (k : Z) : exn + pynum :=
  match v with
  | JNum n => inr (PInt (n - k))
  | JBool b => inr (PInt (Z.b2z b - k))
  | JFloat f => inr (PFloat (float_sub (as_double f) (round53 k 0)))
  | _ => inl TypeError
  end.

(** [timedelta(seconds=n)]. *)
Definition timedelta (n : pynum) : exn + Z :=
  match n with
  | PInt s => timedelta_seconds s
  | PFloat f => timedelta_float f
  end.

(** [timedelta(seconds=v - 30)], the lifetime kept for a token whose
    response says [expires_in = v]. *)
Definition buffered_lifetime (v : json) : exn + Z :=
  match py_sub v 30 with
  | inl e => inl e
  | inr n => timedelta n
  end.

(** [datetime + timedelta]: the sum stays within years 1..9999. *)
Definition datetime_max : Z := 3652059 * 86400 * us_per_second - 1.

Definition datetime_add (t d : Z) : exn + Z :=
  if (0 <=? t + d) && (t + d <=? datetime_max)
  then inr (t + d)
  else inl OverflowError.

(** [jar.get(name)] on the cookie jar of a response, each cookie given by
    name and value: two cookies of the name are a conflict, and one whose
    value is empty counts as none. *)
Definition cookies_named (name : string) (jar : list (string * string))
  : list (string * string) :=
  filter (fun c => String.eqb (fst c) name) jar.

Definition cookiejar_get (name : string) (jar : list (string * string))
  : exn + option string :=
  match cookies_named name jar with
  | [] => inr None
  | [c] => if String.eqb (snd c) EmptyString then inr None
           else inr (Some (snd c))
  | _ :: _ :: _ => inl CookieConflictError
  end.

(** [resp.raise_for_status()] raises for 4xx and 5xx. *)
Definition is_error_status (c : Z) : bool := (400 <=? c) && (c <? 600).

(** [for x in v]: a list yields its elements, a dict its keys, a string
    its characters; nothing else is iterable. *)
Fixpoint chars (s : string) : list json :=
  match s with
  | EmptyString => []
  | String c s' => JStr (String c EmptyString) :: chars s'
  end.

Definition iterate (v : json) : exn + list json :=
  match v with
  | JList l => inr l
  | JObj o => inr (map (fun kv => JStr (fst kv)) o)
  | JStr s => inr (chars s)
  | _ => inl TypeError
  end.

(** [v == name] for a [str] name. *)
Definition eq_str (v : json) (name : string) : bool :=
  match v with
  | JStr s => String.eqb s name
  | _ => false
  end.

(** [next((f for f in entries if f.get("Name") == folder_name), None)]. *)
Fixpoint first_named (folder_name : string) (entries : list json) : exn + json :=
  match entries with
  | [] => inr JNull
  | f :: rest =>
      match get_default f "Name" JNull with
      | inl e => inl e
      | inr v => if eq_str v folder_name then inr f
                 else first_named folder_name rest
      end
  end.

(** [folder.get("Id") or folder.get("ID")]. *)
Definition folder_id (folder : json) : exn + json :=
  match get_default folder "Id" JNull with
  | inl e => inl e
  | inr a => if truthy a then inr a else get_default folder "ID" JNull
  end.

(** A Python [dict] under construction: bindings in insertion order, keys
    compared as Python compares hashable values ([True == 1]). *)
Definition pydict : Type := list (json * json).

Definition hashable (k : json) : bool :=
  match k with
  | JList _ | JObj _ => false
  | _ => true
  end.

(** What a key is compared by: numbers by value across [bool], [int] and
    [float]; NaN is the one object [json] makes for it. *)
Inductive keyclass : Type :=
  | KNone
  | KStr (s : string)
  | KNum (m e : Z)
  | KInf (negative : bool)
  | KNaN.

(** [m * 2^e] with an odd mantissa, or zero. *)
Definition canonical (m e : Z) : keyclass :=
  if m =? 0 then KNum 0 0
  else let z := Z.log2 (Z.land m (- m)) in KNum (Z.shiftr m z) (e + z).

Definition key_class (k : json) : option keyclass :=
  match k with
  | JNull => Some KNone
  | JStr s => Some (KStr s)
  | JNum n => Some (canonical n 0)
  | JBool b => Some (canonical (Z.b2z b) 0)
  | JFloat f =>
      match as_double f with
      | Finite m e => Some (canonical m e)
      | Inf b => Some (KInf b)
      | NaN => Some KNaN
      end
  | JList _ | JObj _ => None
  end.

Definition keyclass_eqb (x y : keyclass) : bool :=
  match x, y with
  | KNone, KNone => true
  | KStr a, KStr b => String.eqb a b
  | KNum m e, KNum m' e' => (m =? m') && (e =? e')
  | KInf a, KInf b => Bool.eqb a b
  | KNaN, KNaN => true
  | _, _ => false
  end.

Definition key_eqb (a b : json) : bool :=
  match key_class a, key_class b with
  | Some x, Some y => keyclass_eqb x y
  | _, _ => false
  end.

(** [d[k] = v]: an existing key keeps its place and gets the new value. *)
Fixpoint dict_set (d : pydict) (k v : json) : pydict :=
  match d with
  | [] => [(k, v)]
  | (k', v') :: d' =>
      if key_eqb k' k then (k', v) :: d' else (k', v') :: dict_set d' k v
  end.

Fixpoint dict_get (d : pydict) (k : json) : option json :=
  match d with
  | [] => None
  | (k', v') :: d' => if key_eqb k' k then Some v' else dict_get d' k
  end.

(** [{item["Title"]: item.get("Password", empty) for item in items}], from an
    accumulator. *)
Fixpoint secrets_dict (acc : pydict) (items : list json) : exn + pydict :=
  match items with
  | [] => inr acc
  | item :: rest =>
      match getitem item "Title" with
      | inl e => inl e
      | inr k =>
          match get_default item "Password" (JStr EmptyString) with
          | inl e => inl e
          | inr v => if hashable k then secrets_dict (dict_set acc k v) rest
                     else inl TypeError
          end
      end
  end.

(** ** The monad *)

Definition M (A : Type) : Type := state -> (exn + A) * state.

Definition ret {A} (a : A) : M A := fun s => (inr a, s).
Definition raise {A} (e : exn) : M A := fun s => (inl e, s).

Definition bind {A B} (m : M A) (k : A -> M B) : M B :=
  fun s => match m s with
           | (inr a, s') => k a s'
           | (inl e, s') => (inl e, s')
           end.

(** [try: m except Exception as e: h e]. *)
Definition try_except {A} (m : M A) (h : exn -> M A) : M A :=
  fun s => match m s with
           | (inr a, s') => (inr a, s')
           | (inl e, s') => h e s'
           end.

Definition lift {A} (r : exn + A) : M A :=
  match r with
  | inr a => ret a
  | inl e => raise e
  end.

Declare Scope py_scope.
Delimit Scope py_scope with py.
Notation "x <- m ;; k" := (bind m (fun x => k))
  (at level 61, m at next level, right associativity) : py_scope.
Notation "m ;; k" := (bind m (fun _ => k))
  (at level 61, right associativity) : py_scope.
Local Open Scope py_scope.

(** The state after further events [t]. *)
Definition log (s : state) (t : list event) : state :=
  {| access_token := access_token s; token_expiry := token_expiry s;
     retries := retries s; backoff := backoff s;
     trace := trace s ++ t |}.

Definition emit (e : event) : M unit := fun s => (inr tt, log s [e]).

Definition set_access_token (v : json) : M unit :=
  fun s => (inr tt,
            {| access_token := v; token_expiry := token_expiry s;
               retries := retries s; backoff := backoff s;
               trace := trace s |}).

Definition set_token_expiry (t : Z) : M unit :=
  fun s => (inr tt,
            {| access_token := access_token s; token_expiry := Some t;
               retries := retries s; backoff := backoff s;
               trace := trace s |}).

Definition read {A} (f : state -> A) : M A := fun s => (inr (f s), s).

Fixpoint count_requests (t : list event) : nat :=
  match t with
  | [] => O
  | EvRequest _ :: t' => S (count_requests t')
  | _ :: t' => count_requests t'
  end.

Fixpoint count_now (t : list event) : nat :=
  match t with
  | [] => O
  | EvNow :: t' => S (count_now t')
  | _ :: t' => count_now t'
  end.

Definition sleeps_of (t : list event) : list Z :=
  flat_map (fun e => match e with EvSleep d => [d] | _ => [] end) t.

Section Client.

Variable w : world.

(** [self.session.post(...)] and [self.session.get(...)]. *)
Definition send (r : request) : M response :=
  n <- read (fun s => count_requests (trace s)) ;;
  emit (EvRequest r) ;;
  lift (transport w n r).

(** [datetime.now(timezone.utc)]. *)
Definition datetime_now : M Z :=
  n <- read (fun s => count_now (trace s)) ;;
  emit EvNow ;;
  ret (clock w n).

(** [time.sleep(d)] for an [int]: a length that does not fit the clock's
    nanoseconds is an [OverflowError], a negative one a [ValueError]. *)
Definition sleep (d : Z) : M unit :=
  if (d * 10 ^ 9 <? - 2 ^ 63) || (2 ^ 63 - 1 <? d * 10 ^ 9)
  then raise OverflowError
  else if d <? 0 then raise ValueError
  else emit (EvSleep d).

Definition raise_for_status (resp : response) : M unit :=
  if is_error_status (status_code resp)
  then raise (HTTPError (status_code resp))
  else ret tt.

(** The body of the [try] block of [_refresh_token] (lines 90-100). *)
Definition refresh_attempt : M json :=
  resp <- send PostToken ;;
  raise_for_status resp ;;
  data <- lift (body resp) ;;
  tok <- lift (getitem data "access_token") ;;
  set_access_token tok ;;
  expires_in <- lift (get_default data "expires_in" (JNum 3600)) ;;
  now <- datetime_now ;;
  lifetime <- lift (py_sub expires_in 30) ;;
  delta <- lift (timedelta lifetime) ;;
  expiry <- lift (datetime_add now delta) ;;
  set_token_expiry expiry ;;
  read access_token.

(** [for attempt in range(self.retries)], entered at [attempt] with [todo]
    iterations left.  A loop that runs out falls off the end of the
    function, which returns [None]. *)
Fixpoint refresh_loop (todo attempt : nat) : M json :=
  match todo with
  | O => ret JNull
  | S todo' =>
      try_except refresh_attempt
        (fun e =>
           n <- read retries ;;
           if Z.of_nat attempt =? Z.of_nat n - 1
           then raise (AuthError_attempts n e)
           else (b <- read backoff ;;
                 sleep (b * (Z.of_nat attempt + 1)) ;;
                 refresh_loop todo' (S attempt)))
  end.

Definition _refresh_token : M json :=
  n <- read retries ;;
  refresh_loop n 0.

(** [get_valid_token]; the [or] does not read the clock when no expiry is
    stored. *)
Definition get_valid_token : M json :=
  stored <- read token_expiry ;;
  is_expired <- match stored with
                | None => ret true
                | Some t => now <- datetime_now ;; ret (t <=? now)
                end ;;
  tok <- read access_token ;;
  if negb (truthy tok) || is_expired
  then _refresh_token
  else read access_token.

(** [_get_auth_headers]. *)
Definition _get_auth_headers : M headers :=
  token <- get_valid_token ;;
  resp <- send (PostSignIn token) ;;
  raise_for_status resp ;;
  found <- lift (cookiejar_get "ASP.NET_SessionId" (cookies resp)) ;;
  match found with
  | None => raise AuthError_no_session
  | Some session_id =>
      if String.eqb session_id EmptyString
      then raise AuthError_no_session
      else ret {| h_bearer := token; h_session := session_id |}
  end.

(** [try: m except requests.RequestException as e: h e]. *)
Definition except_RequestException {A} (m : M A) (h : exn -> M A) : M A :=
  fun s => match m s with
           | (inr a, s') => (inr a, s')
           | (inl e, s') => if is_RequestException e then h e s'
                            else (inl e, s')
           end.

(** [get_secrets], first step ("1. Resolve Folder ID", lines 137-148):
    the headers and the identifier of the folder. *)
Definition resolve_folder_id (folder_name : string) : M (headers * json) :=
  hdrs <- _get_auth_headers ;;
  folder_resp <- send (GetFolders hdrs) ;;
  raise_for_status folder_resp ;;
  listing <- lift (body folder_resp) ;;
  entries <- lift (iterate listing) ;;
  folder <- lift (first_named folder_name entries) ;;
  if negb (truthy folder)
  then raise (ResourceNotFoundError folder_name)
  else (f_id <- lift (folder_id folder) ;;
        ret (hdrs, f_id)).

(** [get_secrets], second step ("2. Fetch Secrets", lines 149-152). *)
Definition fetch_secrets (hdrs : headers) (f_id : json) : M pydict :=
  secrets_resp <- send (GetFolderSecrets f_id hdrs) ;;
  raise_for_status secrets_resp ;;
  payload <- lift (body secrets_resp) ;;
  items <- lift (iterate payload) ;;
  lift (secrets_dict [] items).

(** [get_secrets]: both steps inside the [try]. *)
Definition get_secrets (folder_name : string) : M pydict :=
  except_RequestException
    (found <- resolve_folder_id folder_name ;;
     fetch_secrets (fst found) (snd found))
    (fun e => raise (BeyondTrustError e)).

(** [n] callers of [get_valid_token]: the lock [_token_lock] is held for
    the whole body, so the calls run one after another, each on the
    state the one before left; an exception in one does not stop the
    others. *)
Fixpoint serve (n : nat) (s : state) : list (exn + json) * state :=
  match n with
  | O => ([], s)
  | S n' =>
      let r := get_valid_token s in
      let rest := serve n' (snd r) in
      (fst r :: fst rest, snd rest)
  end.

End Client.

(** ** Specification-side notions *)

(** What the transport itself can do wrong on one call: the call raises,
    or the status makes [raise_for_status] raise. *)
Definition transport_error (o : exn + response) : option exn :=
  match o with
  | inl e => Some e
  | inr r => if is_error_status (status_code r)
             then Some (HTTPError (status_code r))
             else None
  end.

(** A state with another cache and further events. *)
Definition with_cache (s : state) (tok : json) (x : option Z)
    (t : list event) : state :=
  {| access_token := tok; token_expiry := x;
     retries := retries s; backoff := backoff s;
     trace := trace s ++ t |}.

(** A length [time.sleep] accepts. *)
Definition sleepable (d : Z) : Prop :=
  0 <= d /\ d * 10 ^ 9 <= 2 ^ 63 - 1.

(** Retry settings under which every delay of the loop is accepted. *)
Definition sleeps_allowed (s : state) : Prop :=
  0 <= backoff s /\ backoff s * Z.of_nat (retries s) * 10 ^ 9 <= 2 ^ 63 - 1.

(** The state in which [get_valid_token] decides: the clock has been read
    when an expiry was stored. *)
Definition after_check (s : state) : state :=
  match token_expiry s with
  | None => s
  | Some _ => log s [EvNow]
  end.

(** The test of [get_valid_token], read at the state of the call: a token
    is present and the clock reads strictly less than the stored expiry. *)
Definition cache_valid (w : world) (s : state) : bool :=
  truthy (access_token s) &&
  match token_expiry s with
  | Some x => clock w (count_now (trace s)) <? x
  | None => false
  end.

(** The latest clock reading recorded in a state. *)
Definition last_reading (w : world) (s : state) : Z :=
  clock w (pred (count_now (trace s))).

(** Events other than clock readings. *)
Definition drop_now (t : list event) : list event :=
  filter (fun e => match e with EvNow => false | _ => true end) t.

(** [k] attempts from attempt index [attempt], each but the last followed
    by its backoff delay. *)
Fixpoint backoff_pattern (b : Z) (attempt k : nat) : list event :=
  match k with
  | O => []
  | S k' =>
      EvRequest PostToken ::
      match k' with
      | O => []
      | S _ => EvSleep (b * (Z.of_nat attempt + 1))
               :: backoff_pattern b (S attempt) k'
      end
  end.

(** The events of three failed attempts with their two delays. *)
Definition three_attempts : list event :=
  [EvRequest PostToken; EvSleep 2; EvRequest PostToken; EvSleep 4;
   EvRequest PostToken].

(** "The token returned has a buffered expiry that has not passed at the
    moment of return": an expiry is stored and the latest clock reading
    of the call, which the moment of return cannot precede, is strictly
    before it. *)
Definition serves_unexpired_token (w : world) (s : state) : Prop :=
  forall tok s',
    get_valid_token w s = (inr tok, s') ->
    exists x, token_expiry s' = Some x /\ last_reading w s' < x.

Definition is_object (v : json) : Prop := exists o, v = JObj o.

(** An entry whose name field equals [name]. *)
Definition has_name (f : json) (name : string) : Prop :=
  exists o, f = JObj o /\ assoc "Name" o = Some (JStr name).

Definition titled (item : json) : Prop :=
  exists o t, item = JObj o /\ assoc "Title" o = Some t /\ hashable t = true.

Definition lacks_title (item : json) : Prop :=
  exists o, item = JObj o /\ assoc "Title" o = None.

(** The SecretMap in the words of the specification: the value under a
    title is the password of the last item carrying that title, the empty
    string when that item has no password field. *)
Definition password_or_empty (o : list (string * json)) : json :=
  match assoc "Password" o with
  | Some p => p
  | None => JStr EmptyString
  end.

Fixpoint SecretMap_lookup (k : json) (items : list json) : option json :=
  match items with
  | [] => None
  | item :: rest =>
      match SecretMap_lookup k rest with
      | Some v => Some v
      | None =>
          match item with
          | JObj o =>
              match assoc "Title" o with
              | Some t => if key_eqb t k then Some (password_or_empty o)
                          else None
              | None => None
              end
          | _ => None
          end
      end
  end.

(** "The stored expiry [x] equals [T + E - 30] seconds exactly", for a
    float [E = m * 2^e] with [e <= 0]; both sides are counted in steps of
    [2^e] microseconds. *)
Definition exactly_buffered (T x m e : Z) : Prop :=
  (x - T) * 2 ^ (- e) = (m - 30 * 2 ^ (- e)) * us_per_second.

(** ** Scenarios *)

Definition respond (c : Z) (b : json) (ck : list (string * string))
  : exn + response :=
  inr {| status_code := c; body := inr b; cookies := ck |}.

(** A vault that cannot be reached. *)
Definition unreachable : exn := RequestError "connection refused".

Definition down_world : world :=
  {| transport := fun _ _ => inl unreachable;
     clock := fun n => seconds (1000 + Z.of_nat n) |}.

Definition bearer_json (expires_in : list (string * json)) : json :=
  JObj (("access_token", JStr "tok") :: expires_in).

(** A vault that answers every call: an hour-long token, a session
    cookie, the folder Finance with identifier 42 and its two secrets. *)
Definition finance_world : world :=
  {| transport := fun _ r =>
       match r with
       | PostToken => respond 200 (bearer_json [("expires_in", JNum 3600)]) []
       | PostSignIn _ => respond 200 JNull [("ASP.NET_SessionId", "sid")]
       | GetFolders _ =>
           respond 200 (JList [JObj [("Name", JStr "Finance"); ("Id", JNum 42)]]) []
       | GetFolderSecrets _ _ =>
           respond 200
             (JList [JObj [("Title", JStr "db"); ("Password", JStr "p1")];
                     JObj [("Title", JStr "api"); ("Password", JStr EmptyString)]]) []
       end;
     clock := fun n => seconds (1000 + Z.of_nat n) |}.

(** A vault whose token endpoint is unreachable twice and then answers. *)
Definition flaky_world : world :=
  {| transport := fun n r =>
       match r with
       | PostToken => if (n <? 2)%nat then inl unreachable
                      else respond 200 (bearer_json []) []
       | _ => transport finance_world n r
       end;
     clock := clock finance_world |}.

(** The float that the JSON number 3599.9999999 is read as. *)
Definition nearly_an_hour : pyfloat := Finite 3958241859883649 (-40).

(** A vault that reports a fractional lifetime. *)
Definition fractional_world : world :=
  {| transport := fun n r =>
       match r with
       | PostToken =>
           respond 200 (bearer_json [("expires_in", JFloat nearly_an_hour)]) []
       | _ => transport finance_world n r
       end;
     clock := clock finance_world |}.

(** A vault that issues tokens living ten seconds. *)
Definition short_lived_world : world :=
  {| transport := fun n r =>
       match r with
       | PostToken => respond 200 (bearer_json [("expires_in", JNum 10)]) []
       | _ => transport finance_world n r
       end;
     clock := clock finance_world |}.

(** A vault that sends [expires_in] as a string, as some OAuth2 servers
    do. *)
Definition string_expiry_world : world :=
  {| transport := fun n r =>
       match r with
       | PostToken =>
           respond 200 (JObj [("access_token", JStr "new");
                              ("expires_in", JStr "3600")]) []
       | _ => transport finance_world n r
       end;
     clock := clock finance_world |}.

(** A vault that refuses the session sign-in. *)
Definition rejecting_world : world :=
  {| transport := fun n r =>
       match r with
       | PostSignIn _ => respond 401 JNull []
       | _ => transport finance_world n r
       end;
     clock := clock finance_world |}.

(** A client whose cached token has expired. *)
Definition stale_client : state :=
  {| access_token := JStr "old"; token_expiry := Some (seconds 500);
     retries := 3; backoff := 2; trace := [] |}.

(** A client whose cached token is still good at the first clock
    reading. *)
Definition warm_client : state :=
  {| access_token := JStr "tok"; token_expiry := Some (seconds 4570);
     retries := 3; backoff := 2; trace := [] |}.

Definition finance_folder : json :=
  JObj [("Name", JStr "Finance"); ("Id", JNum 42)].

Definition finance_items : list json :=
  [JObj [("Title", JStr "db"); ("Password", JStr "p1")];
   JObj [("Title", JStr "api"); ("Password", JStr EmptyString)]].

(** ** Configuration and construction *)

(** [os.getenv] once [load_dotenv()] has run. *)
Definition environ : Type := string -> option string.

(** The list [required] of [_load_config]. *)
Definition required : list string :=
  ["BT_TOKEN_URL"; "BT_SIGN_IN_URL"; "BT_CLIENT_ID"; "BT_CLIENT_SECRET";
   "BT_BASE_URL"].

(** The dataclass [ClientConfig]; a field holds whatever [os.getenv]
    gave, a string or [None]. *)
Record ClientConfig : Type := mkClientConfig {
  token_url : option string;
  sign_in_url : option string;
  client_id : option string;
  client_secret : option string;
  base_url : option string
}.

Definition ClientConfig_fields : list string :=
  ["token_url"; "sign_in_url"; "client_id"; "client_secret"; "base_url"].

(** What construction can raise: the [BeyondTrustError] of [_load_config],
    "Missing environment configuration: {missing}", or a [TypeError]. *)
Inductive config_exn : Type :=
  | MissingConfiguration (missing : list string)
  | ConfigTypeError.

(** [not v] for the value of an environment variable. *)
Definition unset_or_empty (v : option string) : bool :=
  match v with
  | None => true
  | Some x => String.eqb x EmptyString
  end.

(** [ClientConfig] called with keyword arguments, as [_load_config] does
    with its dict [vals]: the generated [__init__] takes its five
    fields by name; a keyword that is not a field, or a field without a
    keyword, is a [TypeError]. *)
Definition ClientConfig_init (kwargs : list (string * option string))
  : config_exn + ClientConfig :=
  if forallb (fun kv => existsb (String.eqb (fst kv)) ClientConfig_fields) kwargs
  then match assoc "token_url" kwargs, assoc "sign_in_url" kwargs,
             assoc "client_id" kwargs, assoc "client_secret" kwargs,
             assoc "base_url" kwargs with
       | Some a, Some b, Some c, Some d, Some e =>
           inr {| token_url := a; sign_in_url := b; client_id := c;
                  client_secret := d; base_url := e |}
       | _, _, _, _, _ => inl ConfigTypeError
       end
  else inl ConfigTypeError.

(** [_load_config]. *)
Definition _load_config (env : environ) : config_exn + ClientConfig :=
  let vals := map (fun k => (k, env k)) required in
  let missing :=
    map fst (filter (fun kv => unset_or_empty (snd kv)) vals) in
  match missing with
  | _ :: _ => inl (MissingConfiguration missing)
  | [] => ClientConfig_init vals
  end.

(** The attributes [__init__] sets: the configuration and the client
    state. *)
Record instance : Type := mkInstance {
  config : ClientConfig;
  client : state
}.

(** The class attribute [_instance]: no object yet, an object on which
    [__init__] has not completed (no attribute set), or the initialised
    one. *)
Definition process : Type := option (option instance).

(** [__new__]: the object stored in [_instance], a fresh one when there is
    none. *)
Definition BeyondTrustClient_new (p : process) : option instance :=
  match p with
  | None => None
  | Some obj => obj
  end.

(** [__init__]: nothing to do once [_initialized] is set. *)
Definition BeyondTrustClient_init (env : environ) (obj : option instance)
  : config_exn + instance :=
  match obj with
  | Some i => inr i
  | None =>
      match _load_config env with
      | inl e => inl e
      | inr cfg => inr {| config := cfg; client := new_client |}
      end
  end.

(** [BeyondTrustClient()]: [__new__], then [__init__] on its result. *)
Definition BeyondTrustClient (env : environ) (p : process)
  : (config_exn + instance) * process :=
  let obj := BeyondTrustClient_new p in
  match BeyondTrustClient_init env obj with
  | inl e => (inl e, Some obj)
  | inr i => (inr i, Some (Some i))
  end.

(** [get_beyondtrust_secrets]. *)
Definition get_beyondtrust_secrets
    (w : world) (env : environ) (folder_name : string) (p : process)
  : (config_exn + (exn + pydict)) * process :=
  match BeyondTrustClient env p with
  | (inl e, p') => (inl e, p')
  | (inr i, _) =>
      let r := get_secrets w folder_name (client i) in
      (inr (fst r), Some (Some {| config := config i; client := snd r |}))
  end.

(** An environment with every variable set but the client secret, which
    is empty. *)
Definition partial_environ : environ :=
  fun k => if String.eqb k "BT_CLIENT_SECRET" then Some EmptyString
           else if String.eqb k "BT_BASE_URL" then None
           else Some "https://vault.example".

Definition full_environ : environ := fun _ => Some "https://vault.example".



(** A vault whose folder listing is the given one. *)
Definition listing_world (entries : list json) : world :=
  {| transport := fun n r =>
       match r with
       | GetFolders _ => respond 200 (JList entries) []
       | _ => transport finance_world n r
       end;
     clock := clock finance_world |}.

(** A listing with a folder whose name differs in case only, two folders
    named Finance, and a [null] after them. *)
Definition crowded_listing : list json :=
  [JObj [("Name", JStr "finance"); ("Id", JNum 7)];
   JObj [("Name", JStr "Finance"); ("Id", JNum 42)];
   JObj [("Name", JStr "Finance"); ("Id", JNum 43)];
   JNull].

(** A vault whose secrets are the given items. *)
Definition items_world (items : list json) : world :=
  {| transport := fun n r =>
       match r with
       | GetFolderSecrets _ _ => respond 200 (JList items) []
       | _ => transport finance_world n r
       end;
     clock := clock finance_world |}.

(** A titled secret without a password, one without a title, and a
    [null] after them. *)
Definition untitled_items : list json :=
  [JObj [("Title", JStr "db")]; JObj [("Password", JStr "p2")]; JNull].

(** A vault whose folder listing cannot be reached. *)
Definition folders_down_world : world :=
  {| transport := fun n r =>
       match r with
       | GetFolders _ => inl unreachable
       | _ => transport finance_world n r
       end;
     clock := clock finance_world |}.

(** A vault whose folder Finance carries no identifier. *)
Definition idless_world : world :=
  {| transport := fun n r =>
       match r with
       | GetFolders _ => respond 200 (JList [JObj [("Name", JStr "Finance")]]) []
       | _ => transport finance_world n r
       end;
     clock := clock finance_world |}.

(** A vault that answers the folder listing with an error object. *)
Definition object_listing_world : world :=
  {| transport := fun n r =>
       match r with
       | GetFolders _ => respond 200 (JObj [("Message", JStr "denied")]) []
       | _ => transport finance_world n r
       end;
     clock := clock finance_world |}.

(** A vault whose secrets are bare strings. *)
Definition bare_items_world : world :=
  {| transport := fun n r =>
       match r with
       | GetFolderSecrets _ _ => respond 200 (JList [JStr "db"; JStr "api"]) []
       | _ => transport finance_world n r
       end;
     clock := clock finance_world |}.

Definition finance_headers : headers :=
  {| h_bearer := JStr "tok"; h_session := "sid" |}.

(** ** Traces and states *)

Lemma count_requests_app (a b : list event) :
  count_requests (a ++ b) = (count_requests a + count_requests b)%nat.
Proof.
  induction a as [|e a IH]; simpl; [reflexivity|].
  destruct e; simpl; rewrite IH; reflexivity.
Qed.

Lemma count_now_app (a b : list event) :
  count_now (a ++ b) = (count_now a + count_now b)%nat.
Proof.
  induction a as [|e a IH]; simpl; [reflexivity|].
  destruct e; simpl; rewrite IH; reflexivity.
Qed.

Lemma sleeps_of_app (a b : list event) :
  sleeps_of (a ++ b) = sleeps_of a ++ sleeps_of b.
Proof. apply flat_map_app. Qed.

Lemma log_log (s : state) (a b : list event) :
  log (log s a) b = log s (a ++ b).
Proof. unfold log; simpl; rewrite app_assoc; reflexivity. Qed.

Lemma after_check_requests (s : state) :
  count_requests (trace (after_check s)) = count_requests (trace s).
Proof.
  unfold after_check; destruct (token_expiry s); simpl; [|reflexivity].
  rewrite count_requests_app; simpl; lia.
Qed.

(** ** One attempt *)

Ltac run :=
  unfold refresh_attempt, send, datetime_now, raise_for_status,
    set_access_token, set_token_expiry, emit, read, bind, lift, ret, raise;
  simpl.

(** The attempt, outcome by outcome. *)
Lemma refresh_attempt_unfold (w : world) (s : state) :
  refresh_attempt w s
  = match transport w (count_requests (trace s)) PostToken with
    | inl e => (inl e, log s [EvRequest PostToken])
    | inr resp =>
        if is_error_status (status_code resp)
        then (inl (HTTPError (status_code resp)), log s [EvRequest PostToken])
        else
          match body resp with
          | inl e => (inl e, log s [EvRequest PostToken])
          | inr data =>
              match getitem data "access_token" with
              | inl e => (inl e, log s [EvRequest PostToken])
              | inr tok =>
                  match get_default data "expires_in" (JNum 3600) with
                  | inl e =>
                      (inl e,
                       with_cache s tok (token_expiry s) [EvRequest PostToken])
                  | inr v =>
                      match buffered_lifetime v with
                      | inl e =>
                          (inl e,
                           with_cache s tok (token_expiry s)
                             [EvRequest PostToken; EvNow])
                      | inr d =>
                          match datetime_add (clock w (count_now (trace s))) d with
                          | inl e =>
                              (inl e,
                               with_cache s tok (token_expiry s)
                                 [EvRequest PostToken; EvNow])
                          | inr x =>
                              (inr tok,
                               with_cache s tok (Some x)
                                 [EvRequest PostToken; EvNow])
                          end
                      end
                  end
              end
          end
    end.
Proof.
  run.
  destruct (transport w (count_requests (trace s)) PostToken) as [e|resp];
    simpl; [reflexivity|].
  destruct (is_error_status (status_code resp)); simpl; [reflexivity|].
  destruct (body resp) as [e|data]; simpl; [reflexivity|].
  destruct (getitem data "access_token") as [e|tok]; simpl; [reflexivity|].
  destruct (get_default data "expires_in" (JNum 3600)) as [e|v]; simpl;
    [reflexivity|].
  unfold buffered_lifetime, with_cache, log. simpl.
  rewrite count_now_app, Nat.add_0_r, <- app_assoc. simpl.
  destruct (py_sub v 30) as [e|n]; simpl; [reflexivity|].
  destruct (timedelta n) as [e|d]; simpl; [reflexivity|].
  destruct (datetime_add _ d) as [e|x]; reflexivity.
Qed.

Lemma refresh_attempt_transport_error (w : world) (s : state) (e : exn) :
  transport_error (transport w (count_requests (trace s)) PostToken) = Some e ->
  refresh_attempt w s = (inl e, log s [EvRequest PostToken]).
Proof.
  intros H. rewrite refresh_attempt_unfold.
  destruct (transport w (count_requests (trace s)) PostToken) as [e'|r]; simpl in *.
  - congruence.
  - destruct (is_error_status (status_code r)); [|discriminate].
    congruence.
Qed.

Lemma refresh_attempt_inr (w : world) (s s' : state) (tok : json) :
  refresh_attempt w s = (inr tok, s') ->
  exists resp o d,
    transport w (count_requests (trace s)) PostToken = inr resp /\
    is_error_status (status_code resp) = false /\
    body resp = inr (JObj o) /\
    assoc "access_token" o = Some tok /\
    buffered_lifetime (match assoc "expires_in" o with
                       | Some v => v
                       | None => JNum 3600
                       end) = inr d /\
    s' = with_cache s tok (Some (clock w (count_now (trace s)) + d))
           [EvRequest PostToken; EvNow].
Proof.
  rewrite refresh_attempt_unfold.
  destruct (transport w (count_requests (trace s)) PostToken) as [e|resp];
    [discriminate|].
  destruct (is_error_status (status_code resp)) eqn:Hst; [discriminate|].
  destruct (body resp) as [e|data] eqn:Hb; [discriminate|].
  destruct data as [| | | | | |o]; simpl; try discriminate.
  destruct (assoc "access_token" o) as [t|] eqn:Ht; [|discriminate].
  set (v := match assoc "expires_in" o with Some v => v | None => JNum 3600 end).
  replace (match assoc "expires_in" o with
           | Some x => inr x
           | None => inr (JNum 3600)
           end) with (@inr exn json v)
    by (unfold v; destruct (assoc "expires_in" o); reflexivity).
  destruct (buffered_lifetime v) as [e|d] eqn:Hd; [discriminate|].
  unfold datetime_add.
  destruct (_ && _); [|discriminate].
  intros H; inversion H; subst; clear H.
  exists resp, o, d. auto 10.
Qed.

(** An attempt makes one request, reads the clock at most once, and
    leaves the retry settings alone. *)
Lemma refresh_attempt_frame (w : world) (s : state) :
  retries (snd (refresh_attempt w s)) = retries s /\
  backoff (snd (refresh_attempt w s)) = backoff s /\
  (trace (snd (refresh_attempt w s)) = trace s ++ [EvRequest PostToken] \/
   trace (snd (refresh_attempt w s)) = trace s ++ [EvRequest PostToken; EvNow]).
Proof.
  rewrite refresh_attempt_unfold.
  destruct (transport w (count_requests (trace s)) PostToken) as [e|resp];
    simpl; [auto|].
  destruct (is_error_status (status_code resp)); simpl; [auto|].
  destruct (body resp) as [e|data]; simpl; [auto|].
  destruct (getitem data "access_token") as [e|t]; simpl; [auto|].
  destruct (get_default data "expires_in" (JNum 3600)) as [e|v]; simpl; [auto|].
  destruct (buffered_lifetime v) as [e|d]; simpl; [auto|].
  destruct (datetime_add _ d) as [e|x]; simpl; auto.
Qed.

(** An integer [expires_in] is buffered exactly. *)
Lemma buffered_lifetime_int (v : json) (E d : Z) :
  as_int v = Some E ->
  buffered_lifetime v = inr d ->
  d = seconds (E - 30).
Proof.
  unfold buffered_lifetime.
  destruct v; simpl; try discriminate; intros H; inversion H; subst; clear H;
    unfold timedelta_seconds;
    match goal with
    | |- (if ?c then _ else _) = _ -> _ => destruct c
    end; intros H; inversion H; reflexivity.
Qed.

Lemma sleep_accepts (d : Z) (s : state) :
  sleepable d -> sleep d s = (inr tt, log s [EvSleep d]).
Proof.
  intros [H0 Hmax]. unfold sleep.
  replace ((d * 10 ^ 9 <? - 2 ^ 63) || (2 ^ 63 - 1 <? d * 10 ^ 9)) with false.
  - replace (d <? 0) with false; [reflexivity|].
    symmetry. apply Z.ltb_ge. exact H0.
  - symmetry. apply orb_false_iff. split; apply Z.ltb_ge; lia.
Qed.

(** [sleep] either records the delay or raises without a trace. *)
Lemma sleep_cases (d : Z) (s : state) :
  sleep d s = (inr tt, log s [EvSleep d]) \/
  sleep d s = (inl OverflowError, s) \/
  sleep d s = (inl ValueError, s).
Proof.
  unfold sleep. destruct (_ || _); [auto|].
  destruct (d <? 0); auto.
Qed.

(** ** The retry loop, one iteration at a time *)

Lemma refresh_loop_ok (w : world) (todo attempt : nat) (s s1 : state) (tok : json) :
  refresh_attempt w s = (inr tok, s1) ->
  refresh_loop w (S todo) attempt s = (inr tok, s1).
Proof. intros H. simpl. unfold try_except. rewrite H. reflexivity. Qed.

Lemma refresh_loop_last (w : world) (todo attempt : nat) (s s1 : state) (e : exn) :
  refresh_attempt w s = (inl e, s1) ->
  S attempt = retries s1 ->
  refresh_loop w (S todo) attempt s = (inl (AuthError_attempts (retries s1) e), s1).
Proof.
  intros H Hlast. simpl. unfold try_except. rewrite H.
  unfold bind, read, raise.
  replace (Z.of_nat attempt =? Z.of_nat (retries s1) - 1) with true;
    [reflexivity|].
  symmetry. apply Z.eqb_eq. lia.
Qed.

(** A failed attempt that is not the last one: the delay, then the rest
    of the loop. *)
Lemma refresh_loop_sleep (w : world) (todo attempt : nat) (s s1 : state) (e : exn) :
  refresh_attempt w s = (inl e, s1) ->
  S attempt <> retries s1 ->
  refresh_loop w (S todo) attempt s
  = match sleep (backoff s1 * (Z.of_nat attempt + 1)) s1 with
    | (inl e', s2) => (inl e', s2)
    | (inr _, s2) => refresh_loop w todo (S attempt) s2
    end.
Proof.
  intros H Hmore. simpl. unfold try_except. rewrite H.
  unfold bind, read.
  replace (Z.of_nat attempt =? Z.of_nat (retries s1) - 1) with false;
    [reflexivity|].
  symmetry. apply Z.eqb_neq. lia.
Qed.

Lemma refresh_loop_retry (w : world) (todo attempt : nat) (s s1 : state) (e : exn) :
  refresh_attempt w s = (inl e, s1) ->
  S attempt <> retries s1 ->
  sleepable (backoff s1 * (Z.of_nat attempt + 1)) ->
  refresh_loop w (S todo) attempt s
  = refresh_loop w todo (S attempt)
      (log s1 [EvSleep (backoff s1 * (Z.of_nat attempt + 1))]).
Proof.
  intros H Hmore Hd.
  rewrite (refresh_loop_sleep w todo attempt s s1 e H Hmore).
  rewrite (sleep_accepts _ s1 Hd). reflexivity.
Qed.

(** Under allowed settings the delay after a failed attempt that is not
    the last one is accepted. *)
Lemma sleeps_allowed_delay (s : state) (attempt : nat) :
  sleeps_allowed s ->
  (S attempt < retries s)%nat ->
  sleepable (backoff s * (Z.of_nat attempt + 1)).
Proof.
  intros [H0 Hmax] Hlt. unfold sleepable. split; [nia|].
  assert (backoff s * (Z.of_nat attempt + 1) <= backoff s * Z.of_nat (retries s))
    by nia.
  nia.
Qed.

(** The events of the loop: some number of attempts, a delay of
    [backoff * attempt_number] after each one but the last. *)
Lemma refresh_loop_pattern (w : world) (todo : nat) :
  forall (attempt : nat) (s : state),
    (attempt + S todo = retries s)%nat ->
    sleeps_allowed s ->
    exists k new,
      (1 <= k <= S todo)%nat /\
      trace (snd (refresh_loop w (S todo) attempt s)) = trace s ++ new /\
      retries (snd (refresh_loop w (S todo) attempt s)) = retries s /\
      backoff (snd (refresh_loop w (S todo) attempt s)) = backoff s /\
      drop_now new = backoff_pattern (backoff s) attempt k.
Proof.
  induction todo as [|todo IH]; intros attempt s Hsum Hsleep.
  - destruct (refresh_attempt_frame w s) as (Hr & Hb & Ht).
    destruct (refresh_attempt w s) as [[e|tok] s1] eqn:Ha; simpl in Hr, Hb, Ht.
    + rewrite (refresh_loop_last w 0 attempt s s1 e Ha) by lia. simpl.
      destruct Ht as [Ht|Ht]; rewrite Ht; eexists 1%nat, _;
        (split; [lia|split; [reflexivity|auto]]).
    + rewrite (refresh_loop_ok w 0 attempt s s1 tok Ha). simpl.
      destruct Ht as [Ht|Ht]; rewrite Ht; eexists 1%nat, _;
        (split; [lia|split; [reflexivity|auto]]).
  - destruct (refresh_attempt_frame w s) as (Hr & Hb & Ht).
    destruct (refresh_attempt w s) as [[e|tok] s1] eqn:Ha; simpl in Hr, Hb, Ht.
    + assert (Hd : sleepable (backoff s1 * (Z.of_nat attempt + 1))).
      { rewrite Hb. apply sleeps_allowed_delay; [assumption|lia]. }
      rewrite (refresh_loop_retry w (S todo) attempt s s1 e Ha) by (lia || exact Hd).
      set (s2 := log s1 [EvSleep (backoff s1 * (Z.of_nat attempt + 1))]).
      destruct (IH (S attempt) s2) as (k & new & Hk & Htr & Hr2 & Hb2 & Hpat).
      { unfold s2; simpl. lia. }
      { unfold sleeps_allowed, s2. simpl. rewrite Hr, Hb. exact Hsleep. }
      rewrite Htr, Hr2, Hb2. unfold s2; simpl.
      destruct k as [|k]; [lia|].
      destruct Ht as [Ht|Ht]; rewrite Ht, Hr, Hb; eexists (S (S k)), _;
        (split; [lia|split; [rewrite <- !app_assoc; simpl; reflexivity|]]);
        (split; [reflexivity|split; [reflexivity|]]);
        simpl; simpl in Hpat; rewrite Hpat, Hb; reflexivity.
    + rewrite (refresh_loop_ok w (S todo) attempt s s1 tok Ha). simpl.
      destruct Ht as [Ht|Ht]; rewrite Ht; eexists 1%nat, _;
        (split; [lia|split; [reflexivity|auto]]).
Qed.

(** When the transport fails every remaining attempt, the loop makes
    them all and raises with the last error; the cache is not touched. *)
Lemma refresh_loop_exhausted (w : world) (todo : nat) :
  forall (attempt : nat) (s : state) (errs : nat -> exn),
    (attempt + S todo = retries s)%nat ->
    sleeps_allowed s ->
    (forall i, (i <= todo)%nat ->
       transport_error (transport w (count_requests (trace s) + i) PostToken)
       = Some (errs i)) ->
    refresh_loop w (S todo) attempt s
    = (inl (AuthError_attempts (retries s) (errs todo)),
       log s (backoff_pattern (backoff s) attempt (S todo))).
Proof.
  induction todo as [|todo IH]; intros attempt s errs Hsum Hsleep Hfail.
  - pose proof (Hfail O (Nat.le_refl _)) as H0. rewrite Nat.add_0_r in H0.
    apply refresh_attempt_transport_error in H0.
    rewrite (refresh_loop_last w 0 attempt s _ _ H0) by (simpl; lia).
    reflexivity.
  - pose proof (Hfail O (Nat.le_0_l _)) as H0. rewrite Nat.add_0_r in H0.
    apply refresh_attempt_transport_error in H0.
    rewrite (refresh_loop_retry w (S todo) attempt s _ _ H0);
      [|simpl; lia|simpl; apply sleeps_allowed_delay; [assumption|lia]].
    rewrite log_log.
    rewrite (IH (S attempt) _ (fun i => errs (S i))).
    + rewrite log_log. reflexivity.
    + simpl. lia.
    + exact Hsleep.
    + intros i Hi. simpl. rewrite count_requests_app. simpl.
      rewrite <- (Hfail (S i)) by lia. do 2 f_equal. lia.
Qed.

(** The settings of [__init__] are allowed. *)
Lemma sleeps_allowed_default (s : state) :
  retries s = 3%nat -> backoff s = 2 -> sleeps_allowed s.
Proof.
  intros Hr Hb. unfold sleeps_allowed. rewrite Hr, Hb.
  split; [lia|]. vm_compute. discriminate.
Qed.

(** [get_valid_token] by its two branches. *)
Lemma get_valid_token_cases (w : world) (s : state) :
  get_valid_token w s
  = if cache_valid w s
    then (inr (access_token s), after_check s)
    else _refresh_token w (after_check s).
Proof.
  unfold get_valid_token, cache_valid, after_check, datetime_now, bind, read,
    emit, ret.
  destruct (token_expiry s) as [x|]; simpl.
  - rewrite (Z.leb_antisym _ x).
    destruct (truthy (access_token s)); simpl; [|reflexivity].
    destruct (_ <? x); reflexivity.
  - rewrite orb_true_r, andb_false_r. reflexivity.
Qed.

(** ** Exhausting the retries *)

(** C3. When the transport fails the three attempts of [_refresh_token],
    the call raises [AuthError] carrying the third error after exactly
    three requests, separated by the two delays, and no fourth; the callers
    [get_valid_token] and [get_secrets] pass that error on without any
    request of their own. *)
Theorem refresh_token_gives_up_after_three
    (w : world) (s : state) (e0 e1 e2 : exn) (folder_name : string) :
  retries s = 3%nat ->
  backoff s = 2 ->
  transport_error (transport w (count_requests (trace s)) PostToken) = Some e0 ->
  transport_error (transport w (count_requests (trace s) + 1) PostToken) = Some e1 ->
  transport_error (transport w (count_requests (trace s) + 2) PostToken) = Some e2 ->
  _refresh_token w s = (inl (AuthError_attempts 3 e2), log s three_attempts) /\
  (cache_valid w s = false ->
   get_valid_token w s
   = (inl (AuthError_attempts 3 e2), log (after_check s) three_attempts) /\
   get_secrets w folder_name s
   = (inl (AuthError_attempts 3 e2), log (after_check s) three_attempts)).
Proof.
  intros Hr Hb H0 H1 H2.
  assert (Hloop : forall s', retries s' = 3%nat -> backoff s' = 2 ->
            count_requests (trace s') = count_requests (trace s) ->
            _refresh_token w s'
            = (inl (AuthError_attempts 3 e2), log s' three_attempts)).
  { intros s' Hr' Hb' Hn. unfold _refresh_token, bind, read. rewrite Hr'.
    rewrite (refresh_loop_exhausted w 2 0 s'
               (fun i => match i with O => e0 | S O => e1 | _ => e2 end)).
    - rewrite Hr', Hb'. reflexivity.
    - rewrite Hr'. reflexivity.
    - apply sleeps_allowed_default; assumption.
    - intros i Hi. rewrite Hn.
      destruct i as [|[|[|i]]]; [rewrite Nat.add_0_r| | |lia]; assumption. }
  split; [apply Hloop; auto|].
  intros Hstale.
  assert (Hv : get_valid_token w s
               = (inl (AuthError_attempts 3 e2), log (after_check s) three_attempts)).
  { rewrite get_valid_token_cases, Hstale. apply Hloop.
    - unfold after_check; destruct (token_expiry s); assumption.
    - unfold after_check; destruct (token_expiry s); assumption.
    - apply after_check_requests. }
  split; [exact Hv|].
  unfold get_secrets, except_RequestException, resolve_folder_id,
    _get_auth_headers, bind.
  rewrite Hv. reflexivity.
Qed.

Lemma refresh_token_gives_up_after_three_witness :
  _refresh_token down_world new_client
  = (inl (AuthError_attempts 3 unreachable), log new_client three_attempts) /\
  get_secrets down_world "Finance" new_client
  = (inl (AuthError_attempts 3 unreachable), log new_client three_attempts).
Proof.
  destruct (refresh_token_gives_up_after_three down_world new_client
              unreachable unreachable unreachable "Finance"
              eq_refl eq_refl eq_refl eq_refl eq_refl) as [H1 H2].
  split; [exact H1|].
  exact (proj2 (H2 eq_refl)).
Defined.

(** ** A successful refresh *)

(** A loop that returns a token got it from one successful attempt. *)
Lemma refresh_loop_inr (w : world) (tok : json) (s' : state) (todo : nat) :
  forall (attempt : nat) (s : state),
    (attempt + S todo = retries s)%nat ->
    refresh_loop w (S todo) attempt s = (inr tok, s') ->
    exists sk, refresh_attempt w sk = (inr tok, s').
Proof.
  induction todo as [|todo IH]; intros attempt s Hsum Hrun;
    destruct (refresh_attempt_frame w s) as (Hr & Hb & _);
    destruct (refresh_attempt w s) as [[e|t] s1] eqn:Ha; simpl in Hr, Hb.
  - rewrite (refresh_loop_last w 0 attempt s s1 e Ha) in Hrun by lia.
    discriminate.
  - rewrite (refresh_loop_ok w 0 attempt s s1 t Ha) in Hrun.
    inversion Hrun; subst. eauto.
  - rewrite (refresh_loop_sleep w (S todo) attempt s s1 e Ha) in Hrun by lia.
    destruct (sleep_cases (backoff s1 * (Z.of_nat attempt + 1)) s1)
      as [Hs|[Hs|Hs]]; rewrite Hs in Hrun; try discriminate.
    apply IH in Hrun; [assumption|simpl; lia].
  - rewrite (refresh_loop_ok w (S todo) attempt s s1 t Ha) in Hrun.
    inversion Hrun; subst. eauto.
Qed.

(** What a successful [_refresh_token] has seen and stored. *)
Lemma refresh_token_inr (w : world) (s s' : state) (tok : json) :
  (0 < retries s)%nat ->
  _refresh_token w s = (inr tok, s') ->
  exists resp o d,
    transport w (pred (count_requests (trace s'))) PostToken = inr resp /\
    is_error_status (status_code resp) = false /\
    body resp = inr (JObj o) /\
    assoc "access_token" o = Some tok /\
    buffered_lifetime (match assoc "expires_in" o with
                       | Some v => v
                       | None => JNum 3600
                       end) = inr d /\
    access_token s' = tok /\
    token_expiry s' = Some (last_reading w s' + d).
Proof.
  intros Hpos Hrun. unfold _refresh_token, bind, read in Hrun.
  destruct (retries s) as [|n] eqn:Hn; [lia|].
  apply refresh_loop_inr in Hrun; [|simpl; lia].
  destruct Hrun as (sk & Hk).
  apply refresh_attempt_inr in Hk.
  destruct Hk as (resp & o & d & Ht & Hst & Hb & Ha & Hd & ->).
  exists resp, o, d. unfold last_reading, with_cache. simpl.
  rewrite count_requests_app, count_now_app. simpl.
  rewrite !Nat.add_1_r. simpl. auto 10.
Qed.

Lemma seconds_sub (a b : Z) : seconds (a - b) = seconds a - seconds b.
Proof. unfold seconds. ring. Qed.

(** C4, amended. After a successful [_refresh_token] that read the clock
    at [T] and whose response carried an integer [expires_in = E], the
    stored expiry is [T + E - 30] seconds exactly ([T + 3570] seconds for
    [E = 3600]); a response without [expires_in] counts as [E = 3600].
    For a fractional [expires_in] the stored expiry is [T] plus what
    [timedelta] makes of the float [expires_in - 30], a whole number of
    microseconds. *)
Theorem stored_expiry_is_buffered
    (w : world) (s s' : state) (tok : json) :
  retries s = 3%nat ->
  _refresh_token w s = (inr tok, s') ->
  exists resp o,
    transport w (pred (count_requests (trace s'))) PostToken = inr resp /\
    body resp = inr (JObj o) /\
    access_token s' = tok /\
    (forall E, assoc "expires_in" o = Some (JNum E) ->
       token_expiry s' = Some (last_reading w s' + seconds E - seconds 30)) /\
    (assoc "expires_in" o = Some (JNum 3600) ->
       token_expiry s' = Some (last_reading w s' + seconds 3570)) /\
    (assoc "expires_in" o = None ->
       token_expiry s' = Some (last_reading w s' + seconds 3600 - seconds 30)) /\
    (forall f, assoc "expires_in" o = Some (JFloat f) ->
       exists d,
         timedelta_float (float_sub (as_double f) (Finite 30 0)) = inr d /\
         token_expiry s' = Some (last_reading w s' + d)).
Proof.
  intros Hr Hrun.
  destruct (refresh_token_inr w s s' tok) as
    (resp & o & d & Ht & _ & Hb & _ & Hd & Ha & Hx); [lia|assumption|].
  exists resp, o. repeat split; try assumption.
  - intros E HE. rewrite HE in Hd.
    rewrite (buffered_lifetime_int (JNum E) E d eq_refl Hd) in Hx.
    rewrite Hx, seconds_sub, Z.add_sub_assoc. reflexivity.
  - intros HE. rewrite HE in Hd.
    rewrite (buffered_lifetime_int (JNum 3600) 3600 d eq_refl Hd) in Hx.
    exact Hx.
  - intros HE. rewrite HE in Hd.
    rewrite (buffered_lifetime_int (JNum 3600) 3600 d eq_refl Hd) in Hx.
    rewrite Hx, seconds_sub, Z.add_sub_assoc. reflexivity.
  - intros f HE. rewrite HE in Hd. exists d. split; [exact Hd|exact Hx].
Qed.

Lemma stored_expiry_is_buffered_witness :
  token_expiry (snd (_refresh_token finance_world new_client))
  = Some (seconds 1000 + seconds 3570).
Proof.
  destruct (stored_expiry_is_buffered finance_world new_client
              (snd (_refresh_token finance_world new_client)) (JStr "tok")
              eq_refl eq_refl) as (resp & o & Ht & Hb & _ & _ & H3600 & _).
  rewrite H3600; [reflexivity|].
  vm_compute in Ht. inversion Ht; subst. simpl in Hb.
  inversion Hb; subst. reflexivity.
Defined.

(** C4 as stated fails for a fractional [expires_in]: the vault reports
    3599.9999999, the refresh succeeds at [T], and the stored expiry is
    [T + 3570] seconds, which is not [T + E - 30] seconds. *)
Lemma fractional_expires_in_is_rounded :
  fst (_refresh_token fractional_world new_client) = inr (JStr "tok") /\
  last_reading fractional_world (snd (_refresh_token fractional_world new_client))
  = seconds 1000 /\
  token_expiry (snd (_refresh_token fractional_world new_client))
  = Some (seconds 1000 + seconds 3570) /\
  ~ exactly_buffered (seconds 1000) (seconds 1000 + seconds 3570)
      3958241859883649 (-40).
Proof.
  repeat split; try (vm_compute; reflexivity).
  unfold exactly_buffered. vm_compute. discriminate.
Qed.

(** ** Backoff *)

(** C5, amended. With three attempts and base two, [_refresh_token] makes
    one to three requests, and a failing attempt that is followed by
    another one is followed first by a delay of base times its number: 2
    after the first, 4 after the second, and none after the third.  When
    the transport fails twice and the third attempt succeeds, the call
    returns that attempt's token with exactly the delays 2 and 4
    recorded. *)
Theorem backoff_delays_are_two_then_four (w : world) (s : state) :
  retries s = 3%nat ->
  backoff s = 2 ->
  (exists new,
     trace (snd (_refresh_token w s)) = trace s ++ new /\
     (drop_now new = [EvRequest PostToken] \/
      drop_now new = [EvRequest PostToken; EvSleep 2; EvRequest PostToken] \/
      drop_now new = three_attempts)) /\
  (forall (e0 e1 : exn) (tok : json) (s3 : state),
     transport_error (transport w (count_requests (trace s)) PostToken) = Some e0 ->
     transport_error (transport w (count_requests (trace s) + 1) PostToken) = Some e1 ->
     refresh_attempt w
       (log s [EvRequest PostToken; EvSleep 2; EvRequest PostToken; EvSleep 4])
     = (inr tok, s3) ->
     _refresh_token w s = (inr tok, s3) /\
     trace s3 = trace s ++ three_attempts ++ [EvNow] /\
     sleeps_of (trace s3) = sleeps_of (trace s) ++ [2; 4]).
Proof.
  intros Hr Hb. split.
  - unfold _refresh_token, bind, read. rewrite Hr.
    destruct (refresh_loop_pattern w 2 0 s) as (k & new & Hk & Htr & _ & _ & Hpat);
      [rewrite Hr; reflexivity|apply sleeps_allowed_default; assumption|].
    exists new. split; [exact Htr|].
    rewrite Hpat, Hb.
    destruct k as [|[|[|[|k]]]]; try lia; simpl; auto.
  - intros e0 e1 tok s3 H0 H1 H3.
    apply refresh_attempt_transport_error in H0.
    assert (Hloop : _refresh_token w s = (inr tok, s3)).
    { unfold _refresh_token, bind, read. rewrite Hr.
      assert (Hsl : forall j, 0 <= j <= 2 -> sleepable (2 * j)).
      { intros j Hj. unfold sleepable. split; [lia|].
        assert (H63 : 4 * 10 ^ 9 <= 2 ^ 63 - 1) by (vm_compute; discriminate).
        assert (H9 : 0 <= 10 ^ 9) by (vm_compute; discriminate).
        nia. }
      rewrite (refresh_loop_retry w 2 0 s _ _ H0);
        [|simpl; lia|simpl; rewrite Hb; apply (Hsl 1); lia].
      set (s1 := log s [EvRequest PostToken; EvSleep 2]).
      replace (log (log s [EvRequest PostToken]) _) with s1
        by (unfold s1; rewrite log_log; simpl; rewrite Hb; reflexivity).
      assert (H1' : refresh_attempt w s1
                    = (inl e1, log s1 [EvRequest PostToken])).
      { apply refresh_attempt_transport_error. unfold s1. simpl.
        rewrite count_requests_app. simpl. exact H1. }
      rewrite (refresh_loop_retry w 1 1 s1 _ _ H1');
        [|unfold s1; simpl; lia
         |unfold s1; simpl; rewrite Hb; apply (Hsl 2); lia].
      replace (log (log s1 [EvRequest PostToken]) _)
        with (log s [EvRequest PostToken; EvSleep 2; EvRequest PostToken; EvSleep 4])
        by (unfold s1; rewrite !log_log; simpl; rewrite Hb; reflexivity).
      apply refresh_loop_ok. exact H3. }
    split; [exact Hloop|].
    apply refresh_attempt_inr in H3.
    destruct H3 as (resp & o & E & _ & _ & _ & _ & _ & Hs3).
    rewrite Hs3. simpl. rewrite <- app_assoc. split; [reflexivity|].
    rewrite sleeps_of_app. reflexivity.
Qed.

Lemma backoff_delays_are_two_then_four_witness :
  fst (_refresh_token flaky_world new_client) = inr (JStr "tok") /\
  sleeps_of (trace (snd (_refresh_token flaky_world new_client))) = [2; 4].
Proof.
  destruct (backoff_delays_are_two_then_four flaky_world new_client
              eq_refl eq_refl) as [_ H].
  destruct (H unreachable unreachable (JStr "tok")
              (snd (_refresh_token flaky_world new_client))
              eq_refl eq_refl eq_refl) as (Hrun & _ & Hsl).
  rewrite Hrun. split; [reflexivity|exact Hsl].
Defined.

(** C5 as stated lists a third delay of 6 between attempts.  Even when
    all three attempts fail, the delays recorded are 2 and 4 only. *)
Lemma third_failure_is_not_followed_by_a_delay :
  sleeps_of (trace (snd (_refresh_token down_world new_client))) = [2; 4] /\
  ~ In 6 (sleeps_of (trace (snd (_refresh_token down_world new_client)))).
Proof.
  split; [reflexivity|].
  simpl. intros [H|[H|[]]]; discriminate.
Qed.

(** ** Serving the cache *)

Lemma seconds_pos_iff (t E : Z) : t < t + seconds (E - 30) <-> 30 < E.
Proof. unfold seconds, us_per_second. lia. Qed.

(** C1, amended. [get_valid_token] returns the cached token, with no
    request, exactly when a token is present (truthy) and the clock reads
    strictly before the stored expiry; otherwise it calls [_refresh_token]
    and returns its result.  The expiry stored with a refreshed token is
    the reading taken at the refresh plus [timedelta(seconds=expires_in -
    30)], with 3600 for an absent [expires_in]; for an integer
    [expires_in] it lies after that reading if and only if [expires_in]
    exceeds 30. *)
Theorem get_valid_token_serves_cache_or_refreshes (w : world) (s : state) :
  (forall x,
     truthy (access_token s) = true ->
     token_expiry s = Some x ->
     clock w (count_now (trace s)) < x ->
     get_valid_token w s = (inr (access_token s), log s [EvNow])) /\
  (truthy (access_token s) = false \/
   token_expiry s = None \/
   (exists x, token_expiry s = Some x /\ x <= clock w (count_now (trace s))) ->
   get_valid_token w s = _refresh_token w (after_check s)) /\
  (forall tok s',
     retries s = 3%nat ->
     cache_valid w s = false ->
     get_valid_token w s = (inr tok, s') ->
     exists resp o d,
       transport w (pred (count_requests (trace s'))) PostToken = inr resp /\
       body resp = inr (JObj o) /\
       buffered_lifetime (match assoc "expires_in" o with
                          | Some v => v
                          | None => JNum 3600
                          end) = inr d /\
       access_token s' = tok /\
       token_expiry s' = Some (last_reading w s' + d) /\
       (forall E,
          as_int (match assoc "expires_in" o with
                  | Some v => v
                  | None => JNum 3600
                  end) = Some E ->
          (last_reading w s' < last_reading w s' + d <-> 30 < E))).
Proof.
  split; [|split].
  - intros x Htok Hx Hlt. rewrite get_valid_token_cases.
    unfold cache_valid, after_check. rewrite Htok, Hx. simpl.
    apply Z.ltb_lt in Hlt. rewrite Hlt. reflexivity.
  - intros H. rewrite get_valid_token_cases.
    replace (cache_valid w s) with false; [reflexivity|].
    symmetry. unfold cache_valid.
    destruct H as [H|[H|(x & H & Hle)]]; rewrite H; simpl.
    + reflexivity.
    + apply andb_false_r.
    + apply Z.ltb_ge in Hle. rewrite Hle. apply andb_false_r.
  - intros tok s' Hr Hstale Hrun.
    rewrite get_valid_token_cases, Hstale in Hrun.
    apply refresh_token_inr in Hrun.
    + destruct Hrun as (resp & o & d & Ht & _ & Hb & _ & Hd & Ha & Hx).
      exists resp, o, d.
      repeat split; try assumption;
        rewrite (buffered_lifetime_int _ E d H Hd) in *;
        apply seconds_pos_iff; assumption.
    + unfold after_check; destruct (token_expiry s); simpl; lia.
Qed.

Lemma get_valid_token_serves_cache_or_refreshes_witness :
  get_valid_token finance_world warm_client
  = (inr (JStr "tok"), log warm_client [EvNow]) /\
  exists d,
    token_expiry (snd (get_valid_token finance_world new_client))
    = Some (last_reading finance_world
              (snd (get_valid_token finance_world new_client)) + d) /\
    last_reading finance_world (snd (get_valid_token finance_world new_client))
    < last_reading finance_world
        (snd (get_valid_token finance_world new_client)) + d.
Proof.
  split.
  - apply (proj1 (get_valid_token_serves_cache_or_refreshes
                    finance_world warm_client) (seconds 4570));
      reflexivity.
  - destruct (proj2 (proj2 (get_valid_token_serves_cache_or_refreshes
                              finance_world new_client))
                (JStr "tok") (snd (get_valid_token finance_world new_client))
                eq_refl eq_refl eq_refl)
      as (resp & o & d & Ht & Hb & _ & _ & Hx & Hiff).
    exists d. split; [exact Hx|].
    vm_compute in Ht. inversion Ht; subst resp. simpl in Hb.
    inversion Hb; subst o.
    apply (Hiff 3600 eq_refl). lia.
Defined.

(** C1 as stated fails: a vault that reports [expires_in = 10] makes
    [get_valid_token] return a token whose stored expiry is twenty
    seconds before the clock reading at which it was stored. *)
Lemma short_lived_token_is_served_expired :
  ~ serves_unexpired_token short_lived_world new_client.
Proof.
  intros H.
  destruct (H (JStr "tok") (snd (get_valid_token short_lived_world new_client))
              eq_refl) as (x & Hx & Hlt).
  vm_compute in Hx. inversion Hx; subst x.
  vm_compute in Hlt. discriminate.
Qed.

(** ** A refresh that fails half way *)

(** C6. The vault answers 200 with an [access_token] and a string
    [expires_in]; each attempt stores the token and then raises on the
    subtraction.  The call raises [AuthError], and the cache holds the new
    token with the old expiry. *)
Theorem failed_refresh_leaves_new_token_with_old_expiry :
  exists s',
    _refresh_token string_expiry_world stale_client
    = (inl (AuthError_attempts 3 TypeError), s') /\
    access_token stale_client = JStr "old" /\
    access_token s' = JStr "new" /\
    token_expiry s' = token_expiry stale_client.
Proof. eexists. repeat split; reflexivity. Qed.

(** ** Sign-in *)

(** C7. When the sign-in POST answers with a 4xx or 5xx status,
    [_get_auth_headers] raises the transport's [HTTPError] as it is, and
    [get_secrets] re-raises it as the generic [BeyondTrustError]; neither
    is an [AuthError]. *)
Theorem sign_in_http_error_is_not_auth_error
    (w : world) (s s1 : state) (tok : json) (resp : response)
    (folder_name : string) :
  get_valid_token w s = (inr tok, s1) ->
  transport w (count_requests (trace s1)) (PostSignIn tok) = inr resp ->
  is_error_status (status_code resp) = true ->
  _get_auth_headers w s
  = (inl (HTTPError (status_code resp)), log s1 [EvRequest (PostSignIn tok)]) /\
  get_secrets w folder_name s
  = (inl (BeyondTrustError (HTTPError (status_code resp))),
     log s1 [EvRequest (PostSignIn tok)]) /\
  is_AuthError (HTTPError (status_code resp)) = false /\
  is_AuthError (BeyondTrustError (HTTPError (status_code resp))) = false.
Proof.
  intros Htok Hresp Hst.
  assert (Hh : _get_auth_headers w s
               = (inl (HTTPError (status_code resp)),
                  log s1 [EvRequest (PostSignIn tok)])).
  { unfold _get_auth_headers, bind. rewrite Htok.
    unfold send, bind, read, emit, lift, raise_for_status, ret. simpl.
    rewrite Hresp. simpl. rewrite Hst. reflexivity. }
  split; [exact Hh|]. split; [|split; reflexivity].
  unfold get_secrets, except_RequestException, resolve_folder_id, bind.
  rewrite Hh. reflexivity.
Qed.

Lemma sign_in_http_error_is_not_auth_error_witness :
  fst (get_secrets rejecting_world "Finance" new_client)
  = inl (BeyondTrustError (HTTPError 401)).
Proof.
  destruct (sign_in_http_error_is_not_auth_error rejecting_world new_client
              (snd (get_valid_token rejecting_world new_client)) (JStr "tok")
              {| status_code := 401; body := inr JNull; cookies := [] |}
              "Finance" eq_refl eq_refl eq_refl) as (_ & H & _).
  rewrite H. reflexivity.
Defined.

(** ** Resolving the folder *)

Lemma lift_run {A} (r : exn + A) (s : state) : lift r s = (r, s).
Proof. destruct r; reflexivity. Qed.

Lemma first_named_hit (name : string) (f : json) (rest : list json) :
  has_name f name -> first_named name (f :: rest) = inr f.
Proof.
  intros (o & -> & Hn). simpl. rewrite Hn. simpl.
  rewrite String.eqb_refl. reflexivity.
Qed.

Lemma first_named_miss (name : string) (f : json) (rest : list json) :
  is_object f -> ~ has_name f name ->
  first_named name (f :: rest) = first_named name rest.
Proof.
  intros (o & ->) Hno. simpl.
  destruct (assoc "Name" o) as [v|] eqn:Hn; simpl; [|reflexivity].
  destruct v; simpl; try reflexivity.
  destruct (String.eqb s name) eqn:Heq; [|reflexivity].
  apply String.eqb_eq in Heq. subst s.
  exfalso. apply Hno. exists o. auto.
Qed.

Lemma first_named_skip (name : string) (before rest : list json) :
  Forall is_object before ->
  (forall g, In g before -> ~ has_name g name) ->
  first_named name (before ++ rest) = first_named name rest.
Proof.
  induction before as [|g before IH]; intros Hobj Hno; [reflexivity|].
  inversion Hobj; subst.
  simpl app. rewrite first_named_miss; [|assumption|apply Hno; left; reflexivity].
  apply IH; [assumption|]. intros g' Hin. apply Hno. right. exact Hin.
Qed.

Lemma first_named_none (name : string) (entries : list json) :
  Forall is_object entries ->
  (forall g, In g entries -> ~ has_name g name) ->
  first_named name entries = inr JNull.
Proof.
  intros Hobj Hno. rewrite <- (app_nil_r entries).
  rewrite first_named_skip; auto.
Qed.

(** The first step, once the folder listing is in. *)
Lemma resolve_folder_id_listing
    (w : world) (s s1 : state) (hdrs : headers) (resp : response)
    (entries : list json) (name : string) :
  _get_auth_headers w s = (inr hdrs, s1) ->
  transport w (count_requests (trace s1)) (GetFolders hdrs) = inr resp ->
  is_error_status (status_code resp) = false ->
  body resp = inr (JList entries) ->
  resolve_folder_id w name s
  = (match first_named name entries with
     | inl e => inl e
     | inr folder =>
         if negb (truthy folder) then inl (ResourceNotFoundError name)
         else match folder_id folder with
              | inl e => inl e
              | inr f_id => inr (hdrs, f_id)
              end
     end, log s1 [EvRequest (GetFolders hdrs)]).
Proof.
  intros Hh Ht Hst Hb. unfold resolve_folder_id, bind. rewrite Hh.
  unfold send, bind, read, emit, raise_for_status. simpl.
  rewrite Ht. simpl. rewrite Hst. simpl. rewrite Hb. simpl.
  destruct (first_named name entries) as [e|folder]; simpl; [reflexivity|].
  destruct (truthy folder); simpl; [|reflexivity].
  destruct (folder_id folder); reflexivity.
Qed.

(** The second step makes exactly one request, whatever comes back. *)
Lemma fetch_secrets_trace (w : world) (hdrs : headers) (f_id : json) (s : state) :
  trace (snd (fetch_secrets w hdrs f_id s))
  = trace s ++ [EvRequest (GetFolderSecrets f_id hdrs)].
Proof.
  unfold fetch_secrets, send, bind, read, emit, raise_for_status. simpl.
  destruct (transport w _ _) as [e|resp]; simpl; [reflexivity|].
  destruct (is_error_status (status_code resp)); simpl; [reflexivity|].
  destruct (body resp) as [e|payload]; simpl; [reflexivity|].
  destruct (iterate payload) as [e|items]; simpl; [reflexivity|].
  rewrite lift_run. reflexivity.
Qed.

Lemma fetch_secrets_items
    (w : world) (hdrs : headers) (f_id : json) (s : state)
    (resp : response) (items : list json) :
  transport w (count_requests (trace s)) (GetFolderSecrets f_id hdrs) = inr resp ->
  is_error_status (status_code resp) = false ->
  body resp = inr (JList items) ->
  fetch_secrets w hdrs f_id s
  = (secrets_dict [] items, log s [EvRequest (GetFolderSecrets f_id hdrs)]).
Proof.
  intros Ht Hst Hb.
  unfold fetch_secrets, send, bind, read, emit, raise_for_status. simpl.
  rewrite Ht. simpl. rewrite Hst. simpl. rewrite Hb. simpl.
  apply lift_run.
Qed.

Lemma get_secrets_after_resolve
    (w : world) (name : string) (s s1 : state) (hdrs : headers) (f_id : json) :
  resolve_folder_id w name s = (inr (hdrs, f_id), s1) ->
  get_secrets w name s
  = except_RequestException (fetch_secrets w hdrs f_id)
      (fun e => raise (BeyondTrustError e)) s1.
Proof.
  intros H. unfold get_secrets, except_RequestException, bind.
  rewrite H. reflexivity.
Qed.

Lemma except_RequestException_state {A} (m : M A) (s : state) :
  snd (except_RequestException m (fun e => raise (BeyondTrustError e)) s)
  = snd (m s).
Proof.
  unfold except_RequestException, raise.
  destruct (m s) as [[e|a] s']; [destruct (is_RequestException e)|]; reflexivity.
Qed.

(** C8, amended. [get_secrets] scans the listing in order and stops at
    the first entry that decides.  When the entries before the first one
    named exactly as asked are objects, that entry's identifier is the one
    the secrets endpoint is called with, whatever follows it in the
    listing (duplicates, or entries that are not objects).  When all
    entries are objects and none has the name, [get_secrets] raises
    [ResourceNotFoundError] with the name and the folder listing is the
    last request made.  When an entry that is not an object comes before
    any match, [get_secrets] raises [AttributeError] instead, again
    without asking for secrets. *)
Theorem folder_lookup_first_match_or_not_found
    (w : world) (s s1 : state) (hdrs : headers) (resp : response)
    (entries : list json) (name : string) :
  _get_auth_headers w s = (inr hdrs, s1) ->
  transport w (count_requests (trace s1)) (GetFolders hdrs) = inr resp ->
  is_error_status (status_code resp) = false ->
  body resp = inr (JList entries) ->
  (forall before f after,
     entries = before ++ f :: after ->
     Forall is_object before ->
     (forall g, In g before -> ~ has_name g name) ->
     has_name f name ->
     exists f_id,
       folder_id f = inr f_id /\
       resolve_folder_id w name s
       = (inr (hdrs, f_id), log s1 [EvRequest (GetFolders hdrs)]) /\
       trace (snd (get_secrets w name s))
       = trace s1 ++ [EvRequest (GetFolders hdrs);
                      EvRequest (GetFolderSecrets f_id hdrs)]) /\
  (Forall is_object entries ->
   (forall g, In g entries -> ~ has_name g name) ->
   get_secrets w name s
   = (inl (ResourceNotFoundError name), log s1 [EvRequest (GetFolders hdrs)])) /\
  (forall before bad after,
     entries = before ++ bad :: after ->
     Forall is_object before ->
     (forall g, In g before -> ~ has_name g name) ->
     ~ is_object bad ->
     get_secrets w name s
     = (inl AttributeError, log s1 [EvRequest (GetFolders hdrs)])).
Proof.
  intros Hh Ht Hst Hb.
  pose proof (resolve_folder_id_listing w s s1 hdrs resp entries name
                Hh Ht Hst Hb) as Hres.
  split; [|split].
  - intros before f after -> Hobj Hno Hf.
    rewrite first_named_skip, first_named_hit in Hres by assumption.
    destruct Hf as (o & -> & Hn).
    assert (Htruthy : truthy (JObj o) = true)
      by (destruct o; [discriminate Hn|reflexivity]).
    rewrite Htruthy in Hres. cbn [negb] in Hres.
    destruct (folder_id (JObj o)) as [e|f_id] eqn:Hid.
    { exfalso. unfold folder_id, get_default in Hid.
      destruct (assoc "Id" o) as [a|]; [destruct (truthy a)|];
        try discriminate Hid; destruct (assoc "ID" o); discriminate Hid. }
    exists f_id. split; [reflexivity|]. split; [exact Hres|].
    rewrite (get_secrets_after_resolve w name s _ hdrs f_id Hres).
    rewrite except_RequestException_state, fetch_secrets_trace. simpl.
    rewrite <- app_assoc. reflexivity.
  - intros Hobj Hno. rewrite first_named_none in Hres by assumption.
    simpl in Hres.
    unfold get_secrets, except_RequestException, bind. rewrite Hres.
    reflexivity.
  - intros before bad after -> Hobj Hno Hbad.
    rewrite first_named_skip in Hres by assumption.
    assert (Hfirst : first_named name (bad :: after) = inl AttributeError).
    { destruct bad; try reflexivity. exfalso. apply Hbad. eexists; reflexivity. }
    rewrite Hfirst in Hres.
    unfold get_secrets, except_RequestException, bind. rewrite Hres.
    reflexivity.
Qed.

Lemma folder_lookup_first_match_or_not_found_witness :
  trace (snd (get_secrets (listing_world crowded_listing) "Finance" new_client))
  = trace (snd (_get_auth_headers (listing_world crowded_listing) new_client))
    ++ [EvRequest (GetFolders finance_headers);
        EvRequest (GetFolderSecrets (JNum 42) finance_headers)] /\
  get_secrets finance_world "Missing" new_client
  = (inl (ResourceNotFoundError "Missing"),
     log (snd (_get_auth_headers finance_world new_client))
       [EvRequest (GetFolders finance_headers)]).
Proof.
  split.
  - destruct (proj1 (folder_lookup_first_match_or_not_found
                       (listing_world crowded_listing) new_client
                       (snd (_get_auth_headers (listing_world crowded_listing)
                               new_client))
                       finance_headers
                       {| status_code := 200; body := inr (JList crowded_listing);
                          cookies := [] |}
                       crowded_listing "Finance"
                       eq_refl eq_refl eq_refl eq_refl)
                [JObj [("Name", JStr "finance"); ("Id", JNum 7)]]
                (JObj [("Name", JStr "Finance"); ("Id", JNum 42)])
                [JObj [("Name", JStr "Finance"); ("Id", JNum 43)]; JNull]
                eq_refl)
      as (f_id & Hid & _ & Htrace).
    + repeat constructor. eexists; reflexivity.
    + intros g [<-|[]] (o & Ho & Hn). inversion Ho; subst o. discriminate Hn.
    + eexists; split; reflexivity.
    + vm_compute in Hid. inversion Hid; subst f_id. exact Htrace.
  - apply (proj1 (proj2 (folder_lookup_first_match_or_not_found finance_world
                           new_client
                           (snd (_get_auth_headers finance_world new_client))
                           finance_headers
                           {| status_code := 200;
                              body := inr (JList [finance_folder]);
                              cookies := [] |}
                           [finance_folder] "Missing"
                           eq_refl eq_refl eq_refl eq_refl))).
    + repeat constructor. exists [("Name", JStr "Finance"); ("Id", JNum 42)].
      reflexivity.
    + intros g [<-|[]] (o & Ho & Hn). inversion Ho; subst o. discriminate Hn.
Defined.

(** C8 as stated fails: no entry of the listing [[null]] has the name
    asked for, and [get_secrets] raises [AttributeError], which is not a
    [ResourceNotFoundError] and not a [BeyondTrustError] at all. *)
Lemma null_entry_raises_attribute_error :
  (forall g, In g [JNull] -> ~ has_name g "Missing") /\
  get_secrets (listing_world [JNull]) "Missing" new_client
  = (inl AttributeError,
     log (snd (_get_auth_headers (listing_world [JNull]) new_client))
       [EvRequest (GetFolders finance_headers)]) /\
  AttributeError <> ResourceNotFoundError "Missing" /\
  is_BeyondTrustError AttributeError = false.
Proof.
  split; [|split; [|split]].
  - intros g [<-|[]] (o & Ho & _). discriminate Ho.
  - vm_compute. reflexivity.
  - discriminate.
  - reflexivity.
Qed.

(** ** Building the secret map *)

Lemma keyclass_eqb_eq (x y : keyclass) :
  keyclass_eqb x y = true <-> x = y.
Proof.
  destruct x, y; simpl; split; intros H; try discriminate; try reflexivity.
  - apply String.eqb_eq in H. subst. reflexivity.
  - inversion H. apply String.eqb_refl.
  - apply andb_true_iff in H. destruct H as [H1 H2].
    apply Z.eqb_eq in H1. apply Z.eqb_eq in H2. subst. reflexivity.
  - inversion H. rewrite !Z.eqb_refl. reflexivity.
  - apply Bool.eqb_prop in H. subst. reflexivity.
  - inversion H. apply Bool.eqb_reflx.
Qed.

Lemma keyclass_eqb_sym (x y : keyclass) :
  keyclass_eqb x y = keyclass_eqb y x.
Proof.
  destruct (keyclass_eqb x y) eqn:H1, (keyclass_eqb y x) eqn:H2;
    try reflexivity.
  - apply keyclass_eqb_eq in H1. subst.
    rewrite (proj2 (keyclass_eqb_eq y y) eq_refl) in H2. discriminate.
  - apply keyclass_eqb_eq in H2. subst.
    rewrite (proj2 (keyclass_eqb_eq x x) eq_refl) in H1. discriminate.
Qed.

Lemma key_eqb_sym (a b : json) : key_eqb a b = key_eqb b a.
Proof.
  unfold key_eqb. destruct (key_class a), (key_class b); try reflexivity.
  apply keyclass_eqb_sym.
Qed.

Lemma key_eqb_congr (a b c : json) :
  key_eqb a b = true -> key_eqb a c = key_eqb b c.
Proof.
  unfold key_eqb.
  destruct (key_class a) as [x|], (key_class b) as [y|]; try discriminate.
  intros H. apply keyclass_eqb_eq in H. subst. reflexivity.
Qed.

Lemma dict_get_set (d : pydict) (k v q : json) :
  dict_get (dict_set d k v) q
  = if key_eqb k q then Some v else dict_get d q.
Proof.
  induction d as [|[k0 v0] d IH]; simpl; [reflexivity|].
  destruct (key_eqb k0 k) eqn:Hk; simpl.
  - rewrite (key_eqb_congr k0 k q Hk).
    destruct (key_eqb k q); reflexivity.
  - rewrite IH.
    destruct (key_eqb k0 q) eqn:H0, (key_eqb k q) eqn:H1; try reflexivity.
    rewrite (key_eqb_congr k0 q k H0), key_eqb_sym, H1 in Hk. discriminate.
Qed.

(** The comprehension agrees with the specification's map. *)
Lemma secrets_dict_lookup (items : list json) :
  forall acc : pydict,
    Forall titled items ->
    exists m,
      secrets_dict acc items = inr m /\
      forall k, dict_get m k
                = match SecretMap_lookup k items with
                  | Some v => Some v
                  | None => dict_get acc k
                  end.
Proof.
  induction items as [|item rest IH]; intros acc Hall.
  - exists acc. split; reflexivity.
  - inversion Hall as [|? ? (o & t & -> & Ht & Hh) Hrest]; subst.
    destruct (IH (dict_set acc t (password_or_empty o)) Hrest) as (m & Hm & Hget).
    exists m. split.
    + simpl. rewrite Ht, Hh. unfold password_or_empty in Hm.
      destruct (assoc "Password" o); exact Hm.
    + intros k. rewrite Hget, dict_get_set. simpl. rewrite Ht.
      destruct (SecretMap_lookup k rest); [reflexivity|].
      destruct (key_eqb t k); reflexivity.
Qed.

(** The comprehension stops at the first item without a title. *)
Lemma key_eqb_refl (k : json) : hashable k = true -> key_eqb k k = true.
Proof.
  unfold key_eqb. intros Hh.
  destruct (key_class k) as [x|] eqn:Hk.
  - apply keyclass_eqb_eq. reflexivity.
  - destruct k; simpl in *; try discriminate.
    destruct (as_double f); discriminate.
Qed.

Lemma SecretMap_lookup_app (k : json) (a b : list json) :
  SecretMap_lookup k (a ++ b)
  = match SecretMap_lookup k b with
    | Some v => Some v
    | None => SecretMap_lookup k a
    end.
Proof.
  induction a as [|item a IH]; simpl.
  - destruct (SecretMap_lookup k b); reflexivity.
  - rewrite IH. destruct (SecretMap_lookup k b); reflexivity.
Qed.

(** C9. When the secrets endpoint answers with a list of titled items,
    [get_secrets] returns a dict that binds a title to the password of
    the last item with that title and binds nothing else; an item without
    a password field, not followed by another item of its title, has its
    title bound to the empty string.  With the folder Finance, identifier
    42, and the secrets db/p1 and api/empty, the dict is exactly those two
    bindings. *)
Theorem secret_map_last_title_wins :
  (forall (w : world) (name : string) (s s1 : state) (hdrs : headers)
          (f_id : json) (resp : response) (items : list json),
     resolve_folder_id w name s = (inr (hdrs, f_id), s1) ->
     transport w (count_requests (trace s1)) (GetFolderSecrets f_id hdrs)
     = inr resp ->
     is_error_status (status_code resp) = false ->
     body resp = inr (JList items) ->
     Forall titled items ->
     exists m,
       get_secrets w name s
       = (inr m, log s1 [EvRequest (GetFolderSecrets f_id hdrs)]) /\
       (forall k, dict_get m k = SecretMap_lookup k items) /\
       (forall before o after t,
          items = before ++ JObj o :: after ->
          assoc "Title" o = Some t ->
          assoc "Password" o = None ->
          SecretMap_lookup t after = None ->
          dict_get m t = Some (JStr EmptyString))) /\
  (forall (w : world) (s s1 : state) (hdrs : headers)
          (folders secrets : response) (before after : list json),
     _get_auth_headers w s = (inr hdrs, s1) ->
     transport w (count_requests (trace s1)) (GetFolders hdrs) = inr folders ->
     is_error_status (status_code folders) = false ->
     body folders = inr (JList (before ++ finance_folder :: after)) ->
     Forall is_object before ->
     (forall g, In g before -> ~ has_name g "Finance") ->
     transport w (S (count_requests (trace s1)))
       (GetFolderSecrets (JNum 42) hdrs) = inr secrets ->
     is_error_status (status_code secrets) = false ->
     body secrets = inr (JList finance_items) ->
     fst (get_secrets w "Finance" s)
     = inr [(JStr "db", JStr "p1"); (JStr "api", JStr EmptyString)]).
Proof.
  split.
  - intros w name s s1 hdrs f_id resp items Hres Ht Hst Hb Hall.
    destruct (secrets_dict_lookup items [] Hall) as (m & Hm & Hget).
    assert (Hspec : forall k, dict_get m k = SecretMap_lookup k items).
    { intros k. rewrite Hget. destruct (SecretMap_lookup k items); reflexivity. }
    exists m. split; [|split; [exact Hspec|]].
    + rewrite (get_secrets_after_resolve w name s s1 hdrs f_id Hres).
      unfold except_RequestException.
      rewrite (fetch_secrets_items w hdrs f_id s1 resp items Ht Hst Hb), Hm.
      reflexivity.
    + intros before o after t -> Htitle Hpw Hlast.
      rewrite Hspec, SecretMap_lookup_app. simpl.
      rewrite Hlast, Htitle.
      apply Forall_app in Hall. destruct Hall as [_ Hall].
      inversion Hall as [|? ? (o' & t' & Ho' & Ht' & Hh) _]; subst.
      inversion Ho'; subst o'. rewrite Htitle in Ht'. inversion Ht'; subst t'.
      rewrite (key_eqb_refl t Hh). unfold password_or_empty. rewrite Hpw.
      reflexivity.
  - intros w s s1 hdrs folders secrets before after
      Hh Hf Hfst Hfb Hobj Hno Hs Hsst Hsb.
    pose proof (resolve_folder_id_listing w s s1 hdrs folders _ "Finance"
                  Hh Hf Hfst Hfb) as Hres.
    rewrite first_named_skip in Hres by assumption.
    simpl in Hres.
    rewrite (get_secrets_after_resolve w "Finance" s _ hdrs (JNum 42) Hres).
    unfold except_RequestException.
    rewrite (fetch_secrets_items w hdrs (JNum 42) _ secrets finance_items);
      [reflexivity| |assumption|assumption].
    simpl. rewrite count_requests_app. simpl. rewrite Nat.add_1_r. exact Hs.
Qed.

Lemma secret_map_last_title_wins_witness :
  get_secrets finance_world "Finance" new_client
  = (inr [(JStr "db", JStr "p1"); (JStr "api", JStr EmptyString)],
     snd (get_secrets finance_world "Finance" new_client)) /\
  fst (get_secrets finance_world "Finance" new_client)
  = inr [(JStr "db", JStr "p1"); (JStr "api", JStr EmptyString)].
Proof.
  split; [reflexivity|].
  apply (proj2 secret_map_last_title_wins finance_world new_client
           (snd (_get_auth_headers finance_world new_client))
           {| h_bearer := JStr "tok"; h_session := "sid" |}
           {| status_code := 200; body := inr (JList [finance_folder]);
              cookies := [] |}
           {| status_code := 200; body := inr (JList finance_items);
              cookies := [] |}
           [] []); try reflexivity.
  - constructor.
  - intros g [].
Defined.

(** The comprehension works through titled items before it meets
    anything else. *)
Lemma secrets_dict_titled_prefix (before rest : list json) :
  forall acc : pydict,
    Forall titled before ->
    exists acc', secrets_dict acc (before ++ rest) = secrets_dict acc' rest.
Proof.
  induction before as [|item before IH]; intros acc Hall.
  - exists acc. reflexivity.
  - inversion Hall as [|? ? (o & t & -> & Ht & Hh) Hrest]; subst.
    destruct (IH (dict_set acc t (password_or_empty o)) Hrest) as (acc' & H).
    exists acc'. simpl. rewrite Ht, Hh. unfold password_or_empty in H.
    destruct (assoc "Password" o); exact H.
Qed.

(** C10, amended. When the first item of the secrets list that is not
    an object with a hashable title is an object without a [Title] field,
    [get_secrets] raises [KeyError] for [Title], which is not a
    [BeyondTrustError]; a missing [Password] in the items before it is
    tolerated, and what follows it is not looked at. *)
Theorem untitled_secret_raises_key_error
    (w : world) (name : string) (s s1 : state) (hdrs : headers)
    (f_id : json) (resp : response) (before after : list json)
    (o : list (string * json)) :
  resolve_folder_id w name s = (inr (hdrs, f_id), s1) ->
  transport w (count_requests (trace s1)) (GetFolderSecrets f_id hdrs)
  = inr resp ->
  is_error_status (status_code resp) = false ->
  body resp = inr (JList (before ++ JObj o :: after)) ->
  Forall titled before ->
  assoc "Title" o = None ->
  get_secrets w name s
  = (inl (KeyError "Title"), log s1 [EvRequest (GetFolderSecrets f_id hdrs)]) /\
  is_BeyondTrustError (KeyError "Title") = false.
Proof.
  intros Hres Ht Hst Hb Hall Hno. split; [|reflexivity].
  rewrite (get_secrets_after_resolve w name s s1 hdrs f_id Hres).
  unfold except_RequestException.
  rewrite (fetch_secrets_items w hdrs f_id s1 resp _ Ht Hst Hb).
  destruct (secrets_dict_titled_prefix before (JObj o :: after) [] Hall)
    as (acc' & ->).
  simpl. rewrite Hno. reflexivity.
Qed.

Lemma untitled_secret_raises_key_error_witness :
  fst (get_secrets (items_world untitled_items) "Finance" new_client)
  = inl (KeyError "Title").
Proof.
  destruct (untitled_secret_raises_key_error (items_world untitled_items)
              "Finance" new_client
              (snd (resolve_folder_id (items_world untitled_items) "Finance"
                      new_client))
              finance_headers (JNum 42)
              {| status_code := 200; body := inr (JList untitled_items);
                 cookies := [] |}
              [JObj [("Title", JStr "db")]] [JNull] [("Password", JStr "p2")]
              eq_refl eq_refl eq_refl eq_refl) as [H _].
  - repeat constructor. eexists; eexists.
    split; [reflexivity|]. split; reflexivity.
  - reflexivity.
  - rewrite H. reflexivity.
Defined.

(** C10 as stated fails: in each of these two answers of the secrets
    endpoint the second item lacks [Title], and [get_secrets] raises
    [TypeError], on the string that is the first item and on the list
    that is the first item's title, before it reaches the second. *)
Lemma item_before_the_untitled_one_raises_type_error :
  Exists lacks_title [JStr "x"; JObj [("Password", JStr "p")]] /\
  fst (get_secrets (items_world [JStr "x"; JObj [("Password", JStr "p")]])
         "Finance" new_client)
  = inl TypeError /\
  Exists lacks_title [JObj [("Title", JList [])]; JObj [("Password", JStr "p")]] /\
  fst (get_secrets
         (items_world [JObj [("Title", JList [])]; JObj [("Password", JStr "p")]])
         "Finance" new_client)
  = inl TypeError /\
  TypeError <> KeyError "Title".
Proof.
  repeat split; try (vm_compute; reflexivity); try discriminate;
    apply Exists_cons_tl, Exists_cons_hd; eexists; split; reflexivity.
Qed.

(** ** Configuration and construction *)

Lemma missing_names_filter (env : environ) (l : list string) :
  map fst (filter (fun kv => unset_or_empty (snd kv))
             (map (fun n => (n, env n)) l))
  = filter (fun n => unset_or_empty (env n)) l.
Proof.
  induction l as [|n l IH]; simpl; [reflexivity|].
  destruct (unset_or_empty (env n)); simpl; rewrite IH; reflexivity.
Qed.

Lemma filter_none {A} (f : A -> bool) (l : list A) :
  (forall x, In x l -> f x = false) -> filter f l = [].
Proof.
  induction l as [|x l IH]; intros H; simpl; [reflexivity|].
  rewrite (H x) by (left; reflexivity).
  apply IH. intros y Hy. apply H. right. exact Hy.
Qed.

(** X1. When some required variable is unset or empty, [_load_config]
    raises the configuration error, and the names it lists are exactly
    the required names that are unset or empty, in the order of
    [required]. *)
Theorem load_config_lists_missing_names (env : environ) (k : string) :
  In k required ->
  unset_or_empty (env k) = true ->
  exists missing,
    _load_config env = inl (MissingConfiguration missing) /\
    missing = filter (fun n => unset_or_empty (env n)) required /\
    (forall n, In n missing <->
               In n required /\ (env n = None \/ env n = Some EmptyString)).
Proof.
  intros Hk Hv.
  set (missing := filter (fun n => unset_or_empty (env n)) required).
  assert (Hin : In k missing) by (apply filter_In; auto).
  exists missing. split; [|split; [reflexivity|]].
  - unfold _load_config. rewrite missing_names_filter. fold missing.
    destruct missing; [destruct Hin|reflexivity].
  - intros n. unfold missing. rewrite filter_In.
    unfold unset_or_empty.
    destruct (env n) as [x|]; [|intuition].
    rewrite String.eqb_eq. split; intros [H1 H2]; split; auto.
    + subst x. auto.
    + destruct H2 as [H2|H2]; [discriminate|]. inversion H2; reflexivity.
Qed.

Lemma load_config_lists_missing_names_witness :
  _load_config partial_environ
  = inl (MissingConfiguration ["BT_CLIENT_SECRET"; "BT_BASE_URL"]).
Proof.
  destruct (load_config_lists_missing_names partial_environ "BT_BASE_URL")
    as (missing & H & -> & _).
  - simpl. auto 6.
  - reflexivity.
  - exact H.
Defined.

(** The keywords [_load_config] passes are the names of the variables. *)
Lemma ClientConfig_init_vals (env : environ) :
  ClientConfig_init (map (fun k => (k, env k)) required) = inl ConfigTypeError.
Proof. reflexivity. Qed.

(** [_load_config] raises in every environment. *)
Lemma load_config_raises (env : environ) :
  exists e, _load_config env = inl e.
Proof.
  unfold _load_config. rewrite ClientConfig_init_vals.
  destruct (map fst _); eauto.
Qed.

(** X2. [_load_config] returns a configuration in no environment: with
    the five variables set and non-empty it passes them to [ClientConfig]
    under the names of the variables, which are not the names of the
    fields, and that call raises [TypeError]. *)
Theorem load_config_never_returns (env : environ) :
  (forall cfg, _load_config env <> inr cfg) /\
  ((forall k, In k required -> unset_or_empty (env k) = false) ->
   _load_config env = inl ConfigTypeError).
Proof.
  split.
  - intros cfg H. destruct (load_config_raises env) as (e & He).
    rewrite He in H. discriminate.
  - intros Hset. unfold _load_config.
    rewrite missing_names_filter, filter_none by exact Hset.
    apply ClientConfig_init_vals.
Qed.

Lemma load_config_never_returns_witness :
  _load_config full_environ = inl ConfigTypeError.
Proof.
  apply (proj2 (load_config_never_returns full_environ)).
  intros k _. reflexivity.
Defined.

(** X3. As long as no initialised instance exists, [BeyondTrustClient()]
    raises what [_load_config] raises and leaves behind an object on which
    [__init__] has not completed; [get_beyondtrust_secrets] raises the
    same before any client state exists, so before any request, and the
    next call finds the process in that state again. *)
Theorem entry_point_fails_in_construction
    (w : world) (env : environ) (folder_name : string) (p : process) :
  p = None \/ p = Some None ->
  exists e,
    _load_config env = inl e /\
    BeyondTrustClient env p = (inl e, Some None) /\
    get_beyondtrust_secrets w env folder_name p = (inl e, Some None) /\
    get_beyondtrust_secrets w env folder_name (Some None) = (inl e, Some None).
Proof.
  intros Hp. destruct (load_config_raises env) as (e & He).
  exists e. split; [exact He|].
  assert (Hc : forall q, q = None \/ q = Some None ->
                         BeyondTrustClient env q = (inl e, Some None)).
  { intros q [->| ->]; unfold BeyondTrustClient; simpl; rewrite He;
      reflexivity. }
  split; [apply Hc; exact Hp|].
  unfold get_beyondtrust_secrets.
  rewrite (Hc p Hp), (Hc (Some None)) by auto. split; reflexivity.
Qed.

Lemma entry_point_fails_in_construction_witness :
  get_beyondtrust_secrets finance_world full_environ "Finance" None
  = (inl ConfigTypeError, Some None).
Proof.
  destruct (entry_point_fails_in_construction finance_world full_environ
              "Finance" None (or_introl eq_refl)) as (e & He & _ & H & _).
  rewrite H. vm_compute in He. inversion He; reflexivity.
Defined.

(** ** The retry loop in general *)







(** X5. With a retry count of zero the loop body never runs:
    [_refresh_token] makes no request, touches nothing and returns [None]
    instead of raising, and [get_valid_token] hands that [None] to its
    caller when the cache is not valid. *)
Theorem refresh_token_without_attempts_returns_none (w : world) (s : state) :
  retries s = 0%nat ->
  _refresh_token w s = (inr JNull, s) /\
  (cache_valid w s = false ->
   get_valid_token w s = (inr JNull, after_check s)).
Proof.
  intros Hr.
  assert (H : forall s', retries s' = 0%nat -> _refresh_token w s' = (inr JNull, s')).
  { intros s' Hr'. unfold _refresh_token, bind, read. rewrite Hr'. reflexivity. }
  split; [apply H; exact Hr|].
  intros Hstale. rewrite get_valid_token_cases, Hstale. apply H.
  unfold after_check. destruct (token_expiry s); exact Hr.
Qed.

Lemma refresh_token_without_attempts_returns_none_witness :
  get_valid_token down_world
    {| access_token := JNull; token_expiry := None; retries := 0;
       backoff := 2; trace := [] |}
  = (inr JNull,
     {| access_token := JNull; token_expiry := None; retries := 0;
        backoff := 2; trace := [] |}).
Proof.
  apply (proj2 (refresh_token_without_attempts_returns_none down_world
                  {| access_token := JNull; token_expiry := None;
                     retries := 0; backoff := 2; trace := [] |} eq_refl)).
  reflexivity.
Defined.

(** A failing attempt leaves the stored expiry alone. *)
Lemma refresh_attempt_inl_expiry (w : world) (s s1 : state) (e : exn) :
  refresh_attempt w s = (inl e, s1) -> token_expiry s1 = token_expiry s.
Proof.
  rewrite refresh_attempt_unfold.
  destruct (transport w (count_requests (trace s)) PostToken) as [e'|resp];
    [intros H; inversion H; reflexivity|].
  destruct (is_error_status (status_code resp));
    [intros H; inversion H; reflexivity|].
  destruct (body resp) as [e'|data]; [intros H; inversion H; reflexivity|].
  destruct (getitem data "access_token") as [e'|t];
    [intros H; inversion H; reflexivity|].
  destruct (get_default data "expires_in" (JNum 3600)) as [e'|v];
    [intros H; inversion H; reflexivity|].
  destruct (buffered_lifetime v) as [e'|d];
    [intros H; inversion H; reflexivity|].
  destruct (datetime_add _ d) as [e'|x];
    [intros H; inversion H; reflexivity|discriminate].
Qed.

(** What leaves a failing loop: the [AuthError] of the last attempt, or
    what [time.sleep] raised; under allowed settings, the [AuthError]. *)
Lemma refresh_loop_inl (w : world) (e : exn) (s' : state) (todo : nat) :
  forall (attempt : nat) (s : state),
    (attempt + S todo = retries s)%nat ->
    refresh_loop w (S todo) attempt s = (inl e, s') ->
    token_expiry s' = token_expiry s /\
    ((exists last, e = AuthError_attempts (retries s) last) \/
     e = ValueError \/ e = OverflowError) /\
    (sleeps_allowed s -> exists last, e = AuthError_attempts (retries s) last).
Proof.
  induction todo as [|todo IH]; intros attempt s Hsum Hrun;
    destruct (refresh_attempt_frame w s) as (Hr & Hb & _);
    destruct (refresh_attempt w s) as [[e1|t] s1] eqn:Ha; simpl in Hr, Hb.
  - rewrite (refresh_loop_last w 0 attempt s s1 e1 Ha) in Hrun by lia.
    inversion Hrun; subst. rewrite Hr.
    split; [eapply refresh_attempt_inl_expiry; eassumption|eauto].
  - rewrite (refresh_loop_ok w 0 attempt s s1 t Ha) in Hrun. discriminate.
  - pose proof (refresh_attempt_inl_expiry w s s1 e1 Ha) as Hx.
    rewrite (refresh_loop_sleep w (S todo) attempt s s1 e1 Ha) in Hrun by lia.
    destruct (sleep_cases (backoff s1 * (Z.of_nat attempt + 1)) s1)
      as [Hs|[Hs|Hs]]; rewrite Hs in Hrun.
    + apply IH in Hrun; [|simpl; lia].
      simpl in Hrun. rewrite Hr, Hx in Hrun.
      destruct Hrun as (H1 & H2 & H3).
      split; [exact H1|]. split; [exact H2|].
      intros Hall. apply H3. unfold sleeps_allowed. simpl.
      rewrite Hr, Hb. exact Hall.
    + inversion Hrun; subst. split; [exact Hx|]. split; [auto|].
      intros Hall. exfalso.
      rewrite sleep_accepts in Hs; [discriminate|].
      rewrite Hb. apply sleeps_allowed_delay; [assumption|lia].
    + inversion Hrun; subst. split; [exact Hx|]. split; [auto|].
      intros Hall. exfalso.
      rewrite sleep_accepts in Hs; [discriminate|].
      rewrite Hb. apply sleeps_allowed_delay; [assumption|lia].
  - rewrite (refresh_loop_ok w (S todo) attempt s s1 t Ha) in Hrun.
    discriminate.
Qed.

(** X6. When [_refresh_token] raises, with any retry settings, the stored
    expiry is the one from before the call.  With a base whose delays
    [time.sleep] accepts, whatever went wrong, what it raises is the
    [AuthError] naming the retry count and never the underlying
    exception; otherwise the only other exceptions that can leave it are
    the [ValueError] and [OverflowError] of [time.sleep]. *)
Theorem failed_refresh_raises_auth_error_and_keeps_expiry
    (w : world) (s s' : state) (e : exn) :
  _refresh_token w s = (inl e, s') ->
  token_expiry s' = token_expiry s /\
  ((exists last, e = AuthError_attempts (retries s) last) \/
   e = ValueError \/ e = OverflowError) /\
  (sleeps_allowed s ->
   is_AuthError e = true /\
   exists last, e = AuthError_attempts (retries s) last).
Proof.
  intros Hrun. unfold _refresh_token, bind, read in Hrun.
  destruct (retries s) as [|n] eqn:Hn; [discriminate|].
  apply refresh_loop_inl in Hrun; [|simpl; lia].
  rewrite Hn in Hrun. destruct Hrun as (Hx & Hclass & Hauth).
  split; [exact Hx|]. split; [exact Hclass|].
  intros Hall. destruct (Hauth Hall) as (last & ->). eauto.
Qed.

Lemma failed_refresh_raises_auth_error_and_keeps_expiry_witness :
  token_expiry (snd (_refresh_token string_expiry_world stale_client))
  = Some (seconds 500) /\
  is_AuthError (AuthError_attempts 3 TypeError) = true.
Proof.
  destruct (failed_refresh_raises_auth_error_and_keeps_expiry
              string_expiry_world stale_client _
              (AuthError_attempts 3 TypeError) eq_refl) as (Hx & _ & Hauth).
  split; [exact Hx|].
  apply Hauth. apply sleeps_allowed_default; reflexivity.
Defined.

(** X7. An attempt whose response carries an [access_token] and an
    [expires_in] that is not a number (a string, [null], a list, an
    object) stores the token, reads the clock, and only then raises
    [TypeError]: the new token is in the cache beside the expiry that was
    there before. *)
Theorem token_is_stored_before_expiry_is_computed
    (w : world) (s : state) (resp : response)
    (o : list (string * json)) (tok v : json) :
  transport w (count_requests (trace s)) PostToken = inr resp ->
  is_error_status (status_code resp) = false ->
  body resp = inr (JObj o) ->
  assoc "access_token" o = Some tok ->
  assoc "expires_in" o = Some v ->
  py_sub v 30 = inl TypeError ->
  refresh_attempt w s
  = (inl TypeError,
     {| access_token := tok; token_expiry := token_expiry s;
        retries := retries s; backoff := backoff s;
        trace := trace s ++ [EvRequest PostToken; EvNow] |}).
Proof.
  intros Ht Hst Hb Htok Hv Hsub. rewrite refresh_attempt_unfold.
  rewrite Ht, Hst, Hb. simpl. rewrite Htok, Hv.
  unfold buffered_lifetime. rewrite Hsub. reflexivity.
Qed.

Lemma token_is_stored_before_expiry_is_computed_witness :
  access_token (snd (refresh_attempt string_expiry_world stale_client))
  = JStr "new" /\
  token_expiry (snd (refresh_attempt string_expiry_world stale_client))
  = Some (seconds 500).
Proof.
  rewrite (token_is_stored_before_expiry_is_computed string_expiry_world
             stale_client
             {| status_code := 200;
                body := inr (JObj [("access_token", JStr "new");
                                   ("expires_in", JStr "3600")]);
                cookies := [] |}
             [("access_token", JStr "new"); ("expires_in", JStr "3600")]
             (JStr "new") (JStr "3600")
             eq_refl eq_refl eq_refl eq_refl eq_refl eq_refl).
  split; reflexivity.
Defined.

(** ** Calls in sequence *)

(** The token [get_valid_token] returns is the one in the cache
    afterwards, unless it is the [None] of a loop that never ran. *)
Lemma get_valid_token_returns_cache
    (w : world) (s s1 : state) (tok : json) :
  get_valid_token w s = (inr tok, s1) ->
  truthy tok = true ->
  access_token s1 = tok.
Proof.
  intros Hrun Htruthy. rewrite get_valid_token_cases in Hrun.
  destruct (cache_valid w s).
  - inversion Hrun; subst.
    unfold after_check. destruct (token_expiry s); reflexivity.
  - destruct (retries (after_check s)) as [|n] eqn:Hn.
    + unfold _refresh_token, bind, read in Hrun. rewrite Hn in Hrun.
      inversion Hrun; subst. discriminate Htruthy.
    + apply refresh_token_inr in Hrun; [|lia].
      destruct Hrun as (_ & _ & _ & _ & _ & _ & _ & _ & Ha & _). exact Ha.
Qed.

(** With nothing stored, [get_valid_token] is the refresh. *)
Lemma get_valid_token_empty (w : world) (s : state) :
  token_expiry s = None -> get_valid_token w s = _refresh_token w s.
Proof.
  intros Hx. rewrite get_valid_token_cases. unfold cache_valid, after_check.
  rewrite Hx, andb_false_r. reflexivity.
Qed.

(** A call on an expired cache is the refresh, after one clock reading. *)
Lemma get_valid_token_expired (w : world) (s : state) (x : Z) :
  token_expiry s = Some x ->
  x <= clock w (count_now (trace s)) ->
  get_valid_token w s = _refresh_token w (log s [EvNow]).
Proof.
  intros Hx Hle. rewrite get_valid_token_cases. unfold cache_valid, after_check.
  rewrite Hx. apply Z.ltb_ge in Hle. rewrite Hle, andb_false_r. reflexivity.
Qed.

Lemma refresh_token_inl_expiry (w : world) (s s' : state) (e : exn) :
  _refresh_token w s = (inl e, s') -> token_expiry s' = token_expiry s.
Proof.
  intros Hrun. unfold _refresh_token, bind, read in Hrun.
  destruct (retries s) as [|n] eqn:Hn; [discriminate|].
  apply refresh_loop_inl in Hrun; [|simpl; lia]. apply Hrun.
Qed.

(** Callers that find a token whose expiry is ahead of their clock
    readings are served from the cache, one reading each. *)
Lemma serve_cached (w : world) (x : Z) (n : nat) :
  forall s : state,
    truthy (access_token s) = true ->
    token_expiry s = Some x ->
    (forall i, (count_now (trace s) <= i < count_now (trace s) + n)%nat ->
               clock w i < x) ->
    serve w n s = (repeat (inr (access_token s)) n, log s (repeat EvNow n)).
Proof.
  induction n as [|n IH]; intros s Htok Hx Hclock.
  - simpl. unfold log. rewrite app_nil_r. destruct s; reflexivity.
  - assert (Hcall : get_valid_token w s = (inr (access_token s), log s [EvNow])).
    { rewrite get_valid_token_cases. unfold cache_valid, after_check.
      rewrite Htok, Hx. simpl.
      assert (Hlt : clock w (count_now (trace s)) < x) by (apply Hclock; lia).
      apply Z.ltb_lt in Hlt. rewrite Hlt. reflexivity. }
    cbn [serve]. rewrite Hcall. cbn [fst snd].
    rewrite (IH (log s [EvNow])).
    + simpl. rewrite log_log. reflexivity.
    + exact Htok.
    + exact Hx.
    + intros i Hi. apply Hclock. simpl in Hi.
      rewrite count_now_app in Hi. simpl in Hi. lia.
Qed.

(** C2, amended.  The lock makes the callers of [get_valid_token] run one
    after another.  With an empty cache the first caller's call is the
    refresh.  When that call returns a token (truthy) and stores an
    expiry that lies ahead of the clock readings of the [n] callers after
    it, each of them reads the clock once and returns that same token:
    every request of the [n + 1] calls is a request of the first one, so
    there is one refresh and not [n + 1].  When the first call raises, or
    stores an expiry that the next caller's clock reading has reached,
    the next caller refreshes again. *)
Theorem one_refresh_serves_the_callers_behind_it
    (w : world) (s : state) (n : nat) :
  (token_expiry s = None -> get_valid_token w s = _refresh_token w s) /\
  (forall tok s1 x,
     get_valid_token w s = (inr tok, s1) ->
     truthy tok = true ->
     token_expiry s1 = Some x ->
     (forall i, (count_now (trace s1) <= i < count_now (trace s1) + n)%nat ->
                clock w i < x) ->
     serve w (S n) s = (repeat (inr tok) (S n), log s1 (repeat EvNow n)) /\
     count_requests (trace (snd (serve w (S n) s)))
     = count_requests (trace s1)) /\
  (forall e s1,
     token_expiry s = None ->
     get_valid_token w s = (inl e, s1) ->
     get_valid_token w s1 = _refresh_token w s1) /\
  (forall tok s1 x,
     get_valid_token w s = (inr tok, s1) ->
     token_expiry s1 = Some x ->
     x <= clock w (count_now (trace s1)) ->
     get_valid_token w s1 = _refresh_token w (log s1 [EvNow])).
Proof.
  split; [apply get_valid_token_empty|]. split; [|split].
  - intros tok s1 x Hrun Htruthy Hx Hclock.
    pose proof (get_valid_token_returns_cache w s s1 tok Hrun Htruthy) as Ha.
    assert (Hserve : serve w (S n) s
                     = (repeat (inr tok) (S n), log s1 (repeat EvNow n))).
    { cbn [serve]. rewrite Hrun. cbn [fst snd].
      rewrite (serve_cached w x n s1); try assumption.
      - rewrite Ha. reflexivity.
      - rewrite Ha. exact Htruthy. }
    split; [exact Hserve|].
    rewrite Hserve. simpl. rewrite count_requests_app.
    assert (Hnone : forall k, count_requests (repeat EvNow k) = 0%nat)
      by (induction k; simpl; auto).
    rewrite Hnone. lia.
  - intros e s1 Hx Hrun. rewrite (get_valid_token_empty w s Hx) in Hrun.
    apply refresh_token_inl_expiry in Hrun.
    apply get_valid_token_empty. rewrite Hrun. exact Hx.
  - intros tok s1 x _ Hx Hle. apply (get_valid_token_expired w s1 x Hx Hle).
Qed.

Lemma one_refresh_serves_the_callers_behind_it_witness :
  fst (serve finance_world 10 new_client) = repeat (inr (JStr "tok")) 10 /\
  count_requests (trace (snd (serve finance_world 10 new_client))) = 1%nat.
Proof.
  destruct (proj1 (proj2 (one_refresh_serves_the_callers_behind_it
                            finance_world new_client 9))
              (JStr "tok") (snd (get_valid_token finance_world new_client))
              (seconds 1000 + seconds 3570) eq_refl eq_refl eq_refl)
    as (Hserve & Hcount).
  - intros i Hi. change (count_now _) with 1%nat in Hi.
    unfold finance_world, clock, seconds, us_per_second. lia.
  - rewrite Hcount, Hserve. split; reflexivity.
Defined.

(** C2 as stated fails: ten callers find the cache empty, the vault
    answers each refresh with a token that lives ten seconds, and ten
    requests go to the token endpoint, one for each caller; when the
    vault cannot be reached, each caller makes its three attempts. *)
Lemma ten_callers_make_ten_refreshes :
  access_token new_client = JNull /\
  token_expiry new_client = None /\
  fst (serve short_lived_world 10 new_client) = repeat (inr (JStr "tok")) 10 /\
  count_requests (trace (snd (serve short_lived_world 10 new_client)))
  = 10%nat /\
  count_requests (trace (snd (serve down_world 10 new_client))) = 30%nat.
Proof. repeat split; vm_compute; reflexivity. Qed.

(** X8. After a call of [get_valid_token] that returned a token, a
    further call made while the clock reads before the stored expiry
    returns the same token and makes no request: it only reads the
    clock. *)
Theorem second_call_is_served_from_cache
    (w : world) (s s1 : state) (tok : json) (x : Z) :
  get_valid_token w s = (inr tok, s1) ->
  truthy tok = true ->
  token_expiry s1 = Some x ->
  clock w (count_now (trace s1)) < x ->
  get_valid_token w s1 = (inr tok, log s1 [EvNow]).
Proof.
  intros Hrun Htruthy Hx Hlt.
  pose proof (get_valid_token_returns_cache w s s1 tok Hrun Htruthy) as Ha.
  rewrite get_valid_token_cases. unfold cache_valid, after_check.
  rewrite Ha, Htruthy, Hx. simpl.
  apply Z.ltb_lt in Hlt. rewrite Hlt. reflexivity.
Qed.

Lemma second_call_is_served_from_cache_witness :
  get_valid_token finance_world
    (snd (get_valid_token finance_world new_client))
  = (inr (JStr "tok"),
     log (snd (get_valid_token finance_world new_client)) [EvNow]).
Proof.
  apply (second_call_is_served_from_cache finance_world new_client
           (snd (get_valid_token finance_world new_client)) (JStr "tok")
           (seconds 1000 + seconds 3570)); reflexivity.
Defined.

(** ** Sign-in and the requests of a lookup *)



(** The state of the second step is the state before it and its one
    request. *)
Lemma fetch_secrets_state (w : world) (hdrs : headers) (f_id : json) (s : state) :
  snd (fetch_secrets w hdrs f_id s)
  = log s [EvRequest (GetFolderSecrets f_id hdrs)].
Proof.
  unfold fetch_secrets, send, bind, read, emit, raise_for_status. simpl.
  destruct (transport w _ _) as [e|resp]; simpl; [reflexivity|].
  destruct (is_error_status (status_code resp)); simpl; [reflexivity|].
  destruct (body resp) as [e|payload]; simpl; [reflexivity|].
  destruct (iterate payload) as [e|items]; simpl; [reflexivity|].
  rewrite lift_run. reflexivity.
Qed.

(** The first step, once the headers are there and whatever the listing
    is. *)
Lemma resolve_folder_id_body
    (w : world) (s s1 : state) (hdrs : headers) (resp : response)
    (listing : json) (name : string) :
  _get_auth_headers w s = (inr hdrs, s1) ->
  transport w (count_requests (trace s1)) (GetFolders hdrs) = inr resp ->
  is_error_status (status_code resp) = false ->
  body resp = inr listing ->
  resolve_folder_id w name s
  = (match iterate listing with
     | inl e => inl e
     | inr entries =>
         match first_named name entries with
         | inl e => inl e
         | inr folder =>
             if negb (truthy folder) then inl (ResourceNotFoundError name)
             else match folder_id folder with
                  | inl e => inl e
                  | inr f_id => inr (hdrs, f_id)
                  end
         end
     end, log s1 [EvRequest (GetFolders hdrs)]).
Proof.
  intros Hh Ht Hst Hb. unfold resolve_folder_id, bind. rewrite Hh.
  unfold send, bind, read, emit, raise_for_status. simpl.
  rewrite Ht. simpl. rewrite Hst. simpl. rewrite Hb. simpl.
  destruct (iterate listing) as [e|entries]; simpl; [reflexivity|].
  destruct (first_named name entries) as [e|folder]; simpl; [reflexivity|].
  destruct (truthy folder); simpl; [|reflexivity].
  destruct (folder_id folder); reflexivity.
Qed.

Lemma get_secrets_resolve_fails
    (w : world) (name : string) (s s1 : state) (e : exn) :
  resolve_folder_id w name s = (inl e, s1) ->
  get_secrets w name s
  = (inl (if is_RequestException e then BeyondTrustError e else e), s1).
Proof.
  intros H. unfold get_secrets, except_RequestException, bind, raise.
  rewrite H. destruct (is_RequestException e); reflexivity.
Qed.

(** X10. No exception of the requests library leaves [get_secrets]: one
    raised by the folder listing or by the secrets call (the call itself
    or its status) comes out as [BeyondTrustError] carrying it, a failed
    listing is the last request made, and any other exception passes
    through as it is. *)
Theorem request_failures_surface_as_BeyondTrustError
    (w : world) (folder_name : string) (s : state) :
  (forall e s', get_secrets w folder_name s = (inl e, s') ->
                is_RequestException e = false) /\
  (forall hdrs s1 e,
     _get_auth_headers w s = (inr hdrs, s1) ->
     transport_error (transport w (count_requests (trace s1)) (GetFolders hdrs))
     = Some e ->
     get_secrets w folder_name s
     = (inl (if is_RequestException e then BeyondTrustError e else e),
        log s1 [EvRequest (GetFolders hdrs)])) /\
  (forall hdrs f_id s1 e,
     resolve_folder_id w folder_name s = (inr (hdrs, f_id), s1) ->
     transport_error
       (transport w (count_requests (trace s1)) (GetFolderSecrets f_id hdrs))
     = Some e ->
     get_secrets w folder_name s
     = (inl (if is_RequestException e then BeyondTrustError e else e),
        log s1 [EvRequest (GetFolderSecrets f_id hdrs)])).
Proof.
  split; [|split].
  - intros e s'. unfold get_secrets, except_RequestException, raise.
    destruct (bind _ _ s) as [[e0|m] s0]; [|discriminate].
    destruct (is_RequestException e0) eqn:He0; intros H; inversion H; subst;
      [reflexivity|exact He0].
  - intros hdrs s1 e Hh Ht.
    apply get_secrets_resolve_fails.
    unfold resolve_folder_id, bind. rewrite Hh.
    unfold send, bind, read, emit, raise_for_status, lift, raise, ret. simpl.
    destruct (transport w _ _) as [e'|resp]; simpl in *.
    + inversion Ht; reflexivity.
    + destruct (is_error_status (status_code resp)); [|discriminate].
      inversion Ht; reflexivity.
  - intros hdrs f_id s1 e Hres Ht.
    rewrite (get_secrets_after_resolve w folder_name s s1 hdrs f_id Hres).
    unfold except_RequestException, fetch_secrets, send, bind, read, emit,
      raise_for_status, lift, raise, ret. simpl.
    destruct (transport w _ _) as [e'|resp]; simpl in *.
    + inversion Ht; subst. destruct (is_RequestException e); reflexivity.
    + destruct (is_error_status (status_code resp)); [|discriminate].
      inversion Ht; subst. reflexivity.
Qed.

Lemma request_failures_surface_as_BeyondTrustError_witness :
  get_secrets folders_down_world "Finance" new_client
  = (inl (BeyondTrustError unreachable),
     log (snd (_get_auth_headers folders_down_world new_client))
       [EvRequest (GetFolders finance_headers)]).
Proof.
  apply (proj1 (proj2 (request_failures_surface_as_BeyondTrustError
                         folders_down_world "Finance" new_client))
           finance_headers
           (snd (_get_auth_headers folders_down_world new_client))
           unreachable eq_refl eq_refl).
Defined.

(** ** Edges of the folder lookup *)

(** X11. The identifier of the matched folder is its [Id] when that is
    truthy; an [Id] that is missing or falsy (0, the empty string, null)
    gives way to [ID], and a folder with neither is not an error: the
    lookup goes on with [None] as identifier. *)
Theorem folder_identifier_falls_back
    (w : world) (s s1 : state) (hdrs : headers) (resp : response)
    (before after : list json) (o : list (string * json)) (name : string) :
  _get_auth_headers w s = (inr hdrs, s1) ->
  transport w (count_requests (trace s1)) (GetFolders hdrs) = inr resp ->
  is_error_status (status_code resp) = false ->
  body resp = inr (JList (before ++ JObj o :: after)) ->
  Forall is_object before ->
  (forall g, In g before -> ~ has_name g name) ->
  assoc "Name" o = Some (JStr name) ->
  (forall a, assoc "Id" o = Some a -> truthy a = true ->
     resolve_folder_id w name s
     = (inr (hdrs, a), log s1 [EvRequest (GetFolders hdrs)])) /\
  (assoc "Id" o = None \/
   (exists a, assoc "Id" o = Some a /\ truthy a = false) ->
   resolve_folder_id w name s
   = (inr (hdrs, match assoc "ID" o with Some b => b | None => JNull end),
      log s1 [EvRequest (GetFolders hdrs)])).
Proof.
  intros Hh Ht Hst Hb Hobj Hno Hname.
  pose proof (resolve_folder_id_listing w s s1 hdrs resp _ name Hh Ht Hst Hb)
    as Hres.
  rewrite first_named_skip in Hres by assumption.
  rewrite first_named_hit in Hres by (exists o; auto).
  assert (Htruthy : truthy (JObj o) = true)
    by (destruct o; [discriminate Hname|reflexivity]).
  rewrite Htruthy in Hres. cbn [negb] in Hres.
  unfold folder_id, get_default in Hres.
  split.
  - intros a Ha Hta. rewrite Ha, Hta in Hres. exact Hres.
  - intros [Hnone|(a & Ha & Hta)].
    + rewrite Hnone in Hres. cbn [truthy] in Hres.
      destruct (assoc "ID" o); exact Hres.
    + rewrite Ha, Hta in Hres.
      destruct (assoc "ID" o); exact Hres.
Qed.

Lemma folder_identifier_falls_back_witness :
  trace (snd (get_secrets idless_world "Finance" new_client))
  = trace (snd (_get_auth_headers idless_world new_client))
    ++ [EvRequest (GetFolders finance_headers);
        EvRequest (GetFolderSecrets JNull finance_headers)].
Proof.
  pose proof (proj2 (folder_identifier_falls_back idless_world new_client
              (snd (_get_auth_headers idless_world new_client))
              finance_headers
              {| status_code := 200;
                 body := inr (JList [JObj [("Name", JStr "Finance")]]);
                 cookies := [] |}
              [] [] [("Name", JStr "Finance")] "Finance"
              eq_refl eq_refl eq_refl eq_refl (Forall_nil _)
              (fun g (H : In g []) => match H with end) eq_refl)
              (or_introl eq_refl)) as Hres.
  rewrite (get_secrets_after_resolve _ _ _ _ _ _ Hres).
  rewrite except_RequestException_state, fetch_secrets_trace.
  reflexivity.
Defined.

(** X12. A folder listing that is not a list is not rejected as such.
    [null], a number or a boolean cannot be iterated and raise
    [TypeError]; an object or a string with something in it is iterated
    by key or by character, and the first one raises [AttributeError];
    an empty object, string or list counts as a listing without the
    folder.  Only the last is a [BeyondTrustError], and in no case are
    the secrets asked for. *)
Theorem listing_that_is_not_a_list
    (w : world) (s s1 : state) (hdrs : headers) (resp : response)
    (listing : json) (name : string) :
  _get_auth_headers w s = (inr hdrs, s1) ->
  transport w (count_requests (trace s1)) (GetFolders hdrs) = inr resp ->
  is_error_status (status_code resp) = false ->
  body resp = inr listing ->
  match listing with
  | JNull | JBool _ | JNum _ | JFloat _ =>
      get_secrets w name s
      = (inl TypeError, log s1 [EvRequest (GetFolders hdrs)])
  | JObj (_ :: _) | JStr (String _ _) =>
      get_secrets w name s
      = (inl AttributeError, log s1 [EvRequest (GetFolders hdrs)])
  | JObj [] | JStr EmptyString | JList [] =>
      get_secrets w name s
      = (inl (ResourceNotFoundError name), log s1 [EvRequest (GetFolders hdrs)])
  | JList (_ :: _) => True
  end.
Proof.
  intros Hh Ht Hst Hb.
  pose proof (resolve_folder_id_body w s s1 hdrs resp listing name
                Hh Ht Hst Hb) as Hres.
  destruct listing as [| | | |str|l|o]; simpl in Hres.
  - apply get_secrets_resolve_fails in Hres. exact Hres.
  - apply get_secrets_resolve_fails in Hres. exact Hres.
  - apply get_secrets_resolve_fails in Hres. exact Hres.
  - apply get_secrets_resolve_fails in Hres. exact Hres.
  - destruct str; simpl in Hres;
      apply get_secrets_resolve_fails in Hres; exact Hres.
  - destruct l; [|exact I]. simpl in Hres.
    apply get_secrets_resolve_fails in Hres; exact Hres.
  - destruct o as [|[k v] o]; simpl in Hres;
      apply get_secrets_resolve_fails in Hres; exact Hres.
Qed.

Lemma listing_that_is_not_a_list_witness :
  get_secrets object_listing_world "Finance" new_client
  = (inl AttributeError,
     log (snd (_get_auth_headers object_listing_world new_client))
       [EvRequest (GetFolders finance_headers)]).
Proof.
  apply (listing_that_is_not_a_list object_listing_world new_client
           (snd (_get_auth_headers object_listing_world new_client))
           finance_headers
           {| status_code := 200;
              body := inr (JObj [("Message", JStr "denied")]);
              cookies := [] |}
           (JObj [("Message", JStr "denied")]) "Finance"
           eq_refl eq_refl eq_refl eq_refl).
Defined.

(** X13. When the first item of the secrets list that is not an object
    with a hashable title is something other than an object, or an object
    whose title is a list or an object, [get_secrets] raises [TypeError],
    which is not a [BeyondTrustError]; nothing is returned for the items
    before it. *)
Theorem malformed_secret_item_raises_type_error
    (w : world) (name : string) (s s1 : state) (hdrs : headers)
    (f_id : json) (resp : response) (before after : list json) (bad : json) :
  resolve_folder_id w name s = (inr (hdrs, f_id), s1) ->
  transport w (count_requests (trace s1)) (GetFolderSecrets f_id hdrs)
  = inr resp ->
  is_error_status (status_code resp) = false ->
  body resp = inr (JList (before ++ bad :: after)) ->
  Forall titled before ->
  (forall o, bad <> JObj o) \/
  (exists o t, bad = JObj o /\ assoc "Title" o = Some t /\ hashable t = false) ->
  get_secrets w name s
  = (inl TypeError, log s1 [EvRequest (GetFolderSecrets f_id hdrs)]) /\
  is_BeyondTrustError TypeError = false.
Proof.
  intros Hres Ht Hst Hb Hall Hbad. split; [|reflexivity].
  rewrite (get_secrets_after_resolve w name s s1 hdrs f_id Hres).
  unfold except_RequestException.
  rewrite (fetch_secrets_items w hdrs f_id s1 resp _ Ht Hst Hb).
  destruct (secrets_dict_titled_prefix before (bad :: after) [] Hall)
    as (acc' & ->).
  destruct Hbad as [Hno|(o & t & -> & Htitle & Hh)].
  - destruct bad; try reflexivity. exfalso. eapply Hno. reflexivity.
  - simpl. rewrite Htitle, Hh. destruct (assoc "Password" o); reflexivity.
Qed.

Lemma malformed_secret_item_raises_type_error_witness :
  fst (get_secrets bare_items_world "Finance" new_client) = inl TypeError.
Proof.
  destruct (malformed_secret_item_raises_type_error bare_items_world
              "Finance" new_client
              (snd (resolve_folder_id bare_items_world "Finance" new_client))
              finance_headers (JNum 42)
              {| status_code := 200;
                 body := inr (JList [JStr "db"; JStr "api"]);
                 cookies := [] |}
              [] [JStr "api"] (JStr "db")
              eq_refl eq_refl eq_refl eq_refl (Forall_nil _)
              (or_introl (fun o (H : JStr "db" = JObj o) =>
                            eq_ind (JStr "db")
                              (fun v => match v with JStr _ => True | _ => False end)
                              I _ H))) as [H _].
  rewrite H. reflexivity.
Defined.

(** ** The requests of one lookup *)

Lemma get_auth_headers_after_token
    (w : world) (s s1 : state) (tok : json) :
  get_valid_token w s = (inr tok, s1) ->
  snd (_get_auth_headers w s) = log s1 [EvRequest (PostSignIn tok)] /\
  forall h, fst (_get_auth_headers w s) = inr h -> h_bearer h = tok.
Proof.
  intros Htok. unfold _get_auth_headers, bind. rewrite Htok.
  unfold send, bind, read, emit, lift, raise_for_status, ret, raise. simpl.
  destruct (transport w _ _) as [e|resp]; simpl;
    [split; [reflexivity|discriminate]|].
  destruct (is_error_status (status_code resp)); simpl;
    [split; [reflexivity|discriminate]|].
  destruct (cookiejar_get "ASP.NET_SessionId" (cookies resp)) as [e|[sid|]];
    simpl; try (split; [reflexivity|discriminate]).
  destruct (String.eqb sid EmptyString); simpl;
    split; try reflexivity; try discriminate.
  intros h H. inversion H. reflexivity.
Qed.

Lemma resolve_folder_id_after_headers
    (w : world) (name : string) (s s2 : state) (h : headers) :
  _get_auth_headers w s = (inr h, s2) ->
  snd (resolve_folder_id w name s) = log s2 [EvRequest (GetFolders h)] /\
  forall h' f_id, fst (resolve_folder_id w name s) = inr (h', f_id) -> h' = h.
Proof.
  intros Hh. unfold resolve_folder_id, bind. rewrite Hh.
  unfold send, bind, read, emit, raise_for_status, ret, raise. simpl.
  destruct (transport w _ _) as [e|resp]; simpl;
    [split; [reflexivity|discriminate]|].
  destruct (is_error_status (status_code resp)); simpl;
    [split; [reflexivity|discriminate]|].
  rewrite lift_run.
  destruct (body resp) as [e|listing]; simpl;
    [split; [reflexivity|discriminate]|].
  rewrite lift_run.
  destruct (iterate listing) as [e|entries]; simpl;
    [split; [reflexivity|discriminate]|].
  rewrite lift_run.
  destruct (first_named name entries) as [e|folder]; simpl;
    [split; [reflexivity|discriminate]|].
  destruct (truthy folder); simpl; [|split; [reflexivity|discriminate]].
  rewrite lift_run.
  destruct (folder_id folder) as [e|f_id]; simpl;
    split; try reflexivity; try discriminate.
  intros h' f' H. inversion H. reflexivity.
Qed.

(** What one lookup asks the vault once it holds a token. *)
Lemma get_secrets_after_token
    (w : world) (name : string) (s s1 : state) (tok : json) :
  get_valid_token w s = (inr tok, s1) ->
  exists tail,
    snd (get_secrets w name s) = log s1 (EvRequest (PostSignIn tok) :: tail) /\
    (tail = [] \/
     (exists sid, tail = [EvRequest (GetFolders (mkHeaders tok sid))]) \/
     (exists sid f_id,
        tail = [EvRequest (GetFolders (mkHeaders tok sid));
                EvRequest (GetFolderSecrets f_id (mkHeaders tok sid))])).
Proof.
  intros Htok.
  destruct (get_auth_headers_after_token w s s1 tok Htok) as (Hs2 & Hbearer).
  unfold get_secrets. rewrite except_RequestException_state.
  destruct (_get_auth_headers w s) as [[e|h] s2] eqn:Hh; simpl in Hs2, Hbearer.
  - exists []. split; [|auto].
    unfold bind, resolve_folder_id, bind. rewrite Hh. simpl. exact Hs2.
  - destruct (resolve_folder_id_after_headers w name s s2 h Hh) as (Hs3 & Hsame).
    specialize (Hbearer h eq_refl). destruct h as [b sid]. simpl in Hbearer.
    subst b s2. rewrite log_log in Hs3. simpl in Hs3.
    unfold bind at 1.
    destruct (resolve_folder_id w name s) as [[e|[h' f_id]] s3];
      simpl in Hs3, Hsame.
    + exists [EvRequest (GetFolders (mkHeaders tok sid))].
      split; [exact Hs3|]. right. left. eauto.
    + specialize (Hsame h' f_id eq_refl). subst h' s3. simpl.
      rewrite fetch_secrets_state, log_log. simpl.
      eexists. split; [reflexivity|]. right. right. eauto.
Qed.

(** What [get_valid_token] raises is what the refresh raises. *)
Lemma get_valid_token_inl (w : world) (s s1 : state) (e : exn) :
  get_valid_token w s = (inl e, s1) ->
  ((exists last, e = AuthError_attempts (retries s) last) \/
   e = ValueError \/ e = OverflowError) /\
  (sleeps_allowed s -> exists last, e = AuthError_attempts (retries s) last).
Proof.
  intros Hrun. rewrite get_valid_token_cases in Hrun.
  destruct (cache_valid w s); [discriminate|].
  unfold _refresh_token, bind, read in Hrun.
  destruct (retries (after_check s)) as [|n] eqn:Hn; [discriminate|].
  apply refresh_loop_inl in Hrun; [|simpl; lia].
  destruct Hrun as (_ & Hclass & Hauth).
  unfold sleeps_allowed, after_check, log in Hclass, Hauth.
  destruct (token_expiry s); simpl in Hclass, Hauth;
    (split; [exact Hclass|exact Hauth]).
Qed.

(** X14. One call of [get_secrets] asks the vault, after the token step,
    for at most three things, each once and in this order: the sign-in
    with the token just obtained, the folder listing and the secrets of
    one folder, both under headers carrying that token.  It never asks
    for the token again, and the token cache is as the token step left
    it.  When the token step raises, nothing is asked and what it raised
    is what [get_secrets] raises, never wrapped: the [AuthError] of the
    refresh when the retry settings are ones whose delays [time.sleep]
    accepts, and otherwise possibly the [ValueError] or [OverflowError]
    of [time.sleep]. *)
Theorem get_secrets_request_protocol
    (w : world) (folder_name : string) (s : state) :
  (forall e s1, get_valid_token w s = (inl e, s1) ->
                get_secrets w folder_name s = (inl e, s1) /\
                ((exists last, e = AuthError_attempts (retries s) last) \/
                 e = ValueError \/ e = OverflowError) /\
                (sleeps_allowed s -> is_AuthError e = true)) /\
  (forall tok s1,
     get_valid_token w s = (inr tok, s1) ->
     exists tail,
       snd (get_secrets w folder_name s)
       = log s1 (EvRequest (PostSignIn tok) :: tail) /\
       (tail = [] \/
        (exists sid, tail = [EvRequest (GetFolders (mkHeaders tok sid))]) \/
        (exists sid f_id,
           tail = [EvRequest (GetFolders (mkHeaders tok sid));
                   EvRequest (GetFolderSecrets f_id (mkHeaders tok sid))]))).
Proof.
  split.
  - intros e s1 Hrun.
    destruct (get_valid_token_inl w s s1 e Hrun) as (Hclass & Hauth).
    split; [|split; [exact Hclass|]].
    + assert (Hreq : is_RequestException e = false)
        by (destruct Hclass as [(last & ->)|[-> | ->]]; reflexivity).
      unfold get_secrets, except_RequestException, resolve_folder_id,
        _get_auth_headers, bind.
      rewrite Hrun, Hreq. reflexivity.
    + intros Hall. destruct (Hauth Hall) as (last & ->). reflexivity.
  - intros tok s1 Hrun. apply get_secrets_after_token. exact Hrun.
Qed.

Lemma get_secrets_request_protocol_witness :
  exists tail,
    snd (get_secrets finance_world "Finance" new_client)
    = log (snd (get_valid_token finance_world new_client))
        (EvRequest (PostSignIn (JStr "tok")) :: tail) /\
    (tail = [] \/
     (exists sid, tail = [EvRequest (GetFolders (mkHeaders (JStr "tok") sid))]) \/
     (exists sid f_id,
        tail = [EvRequest (GetFolders (mkHeaders (JStr "tok") sid));
                EvRequest (GetFolderSecrets f_id (mkHeaders (JStr "tok") sid))])).
Proof.
  exact (proj2 (get_secrets_request_protocol finance_world "Finance"
                  new_client)
           (JStr "tok") (snd (get_valid_token finance_world new_client))
           eq_refl).
Defined.


